(** * go-gerber: the Layer abstraction of gerber/layers.go

    A shallow embedding of [Layer.Add], [Layer.WriteGerber], [Layer.MBB] and
    [Gerber.makeLayer] with its layer-kind factories, followed by the
    properties of the aperture registry, of the serialization and of the
    bounding-box cache. *)

From stdpp Require Import base option list gmap strings pretty.
From Stdlib Require Import ZArith Lia.

Local Open Scope Z_scope.
Local Open Scope string_scope.

(** ** Machine integers

    Go's [int] is 64 bits wide on the supported targets; addition wraps. *)

Definition int_min : Z := - 2 ^ 63.
Definition int_max : Z := 2 ^ 63 - 1.

Definition wrap (z : Z) : Z := (z + 2 ^ 63) mod 2 ^ 64 - 2 ^ 63.

Definition int_add (a b : Z) : Z := wrap (a + b).

(** ** Output sinks

    [error] is Go's error interface: [None] is [nil].  A program that is
    handed an [io.Writer] can only call its [Write] method and look at what
    it returns, which is what [IO] records: [Ret] ends with a value,
    [Write s k] calls [w.Write] on the bytes of [s] and continues with the
    returned byte count and error. *)

Definition error : Type := option string.

Inductive IO (A : Type) : Type :=
| Ret (a : A)
| Write (s : string) (k : Z * error -> IO A).

Arguments Ret {A} a.
Arguments Write {A} s k.

Fixpoint bind {A B : Type} (m : IO A) (f : A -> IO B) : IO B :=
  match m with
  | Ret a => f a
  | Write s k => Write s (fun r => bind (k r) f)
  end.

Declare Scope io_scope.
Delimit Scope io_scope with io.
Notation "x <~ m ;; k" := (bind m (fun x => k))
  (at level 100, m at next level, right associativity) : io_scope.
Notation "m ;;; k" := (bind m (fun _ => k))
  (at level 100, right associativity) : io_scope.

(** [io.WriteString(w, s)]: one call of [w.Write]. *)
Definition WriteString (s : string) : IO (Z * error) :=
  Write s (fun r => Ret r).

(** [for _, x := range xs { body(x) }], the result of the body dropped. *)
Fixpoint for_range {A B : Type} (xs : list A) (body : A -> IO B) : IO unit :=
  match xs with
  | [] => Ret tt
  | x :: xs' => bind (body x) (fun _ => for_range xs' body)
  end.

(** [for i, x := range xs { body(i, x) }] with the index counted from [i]. *)
Fixpoint for_range_from {A B : Type} (i : nat) (xs : list A)
    (body : nat -> A -> IO B) : IO unit :=
  match xs with
  | [] => Ret tt
  | x :: xs' => bind (body i x) (fun _ => for_range_from (S i) xs' body)
  end.

(** A sink is a state with a [Write] method returning the byte count and
    the error of the call. *)
Record Writer : Type := {
  sink : Type;
  sink_Write : sink -> string -> sink * (Z * error)
}.

(** Running a program against a sink: the value returned, the final sink
    and, in order, every string handed to [Write] with what came back. *)
Fixpoint run {A : Type} (W : Writer) (m : IO A) (s : sink W)
    : A * sink W * list (string * (Z * error)) :=
  match m with
  | Ret a => (a, s, [])
  | Write str k =>
      let '(s', r) := sink_Write W s str in
      let '(a, s'', log) := run W (k r) s' in
      (a, s'', (str, r) :: log)
  end.

Definition result {A : Type} (W : Writer) (m : IO A) (s : sink W) : A :=
  (run W m s).1.1.

Definition final {A : Type} (W : Writer) (m : IO A) (s : sink W) : sink W :=
  (run W m s).1.2.

Definition calls {A : Type} (W : Writer) (m : IO A) (s : sink W)
    : list (string * (Z * error)) :=
  (run W m s).2.

(** The writes the programs [ms] make when they are run on a sink one
    after the other, each of them once, and the sink they leave. *)
Fixpoint calls_in_turn {B : Type} (W : Writer) (ms : list (IO B))
    (s : sink W) : list (string * (Z * error)) * sink W :=
  match ms with
  | [] => ([], s)
  | m :: ms' =>
      let '(cs, s') := calls_in_turn W ms' (final W m s) in
      ((calls W m s ++ cs)%list, s')
  end.

(** An in-memory buffer ([bytes.Buffer]): every write is appended whole and
    succeeds. *)
Definition Buffer : Writer := {|
  sink := string;
  sink_Write := fun b s => (b +:+ s, (Z.of_nat (String.length s), None))
|}.

(** What a program leaves in a buffer that was empty. *)
Definition output {A : Type} (m : IO A) : string := final Buffer m "".

(** The strings of a list, one after the other. *)
Definition cat (ss : list string) : string := foldr String.append "" ss.

(** A sink on which every write fails, nothing being written. *)
Definition Broken (e : string) : Writer := {|
  sink := unit;
  sink_Write := fun _ _ => (tt, (0, Some e))
|}.

(** ** The collaborators of a layer

    Points and boxes are declared outside layers.go. *)

(** Modelled from the spec: the MBB struct is not in layers.go; it is an
    axis-aligned box, given here by its two corners, so that the zero value
    [MBB{}] is the zero-sized box anchored at the origin. *)
Record Pt (C : Type) : Type := mkPt { X : C; Y : C }.
Record MBB (C : Type) : Type := mkMBB { Min : Pt C; Max : Pt C }.

Arguments mkPt {C} X Y.
Arguments X {C} p.
Arguments Y {C} p.
Arguments mkMBB {C} Min Max.
Arguments Min {C} m.
Arguments Max {C} m.

(** Apertures, primitives and the union of boxes are consumed through
    their methods only. *)
Class Collaborators : Type := {
  (** float64 and its zero value *)
  float64 : Type;
  float64_zero : float64;
  (** [func (a *MBB) Join(b *MBB)]: the receiver after the call *)
  MBB_Join : MBB float64 -> MBB float64 -> MBB float64;
  (** what a non-nil [*Aperture] points to *)
  Aperture : Type;
  (** [func (a *Aperture) ID() string] on a non-nil receiver *)
  Aperture_key : Aperture -> string;
  (** [func (a *Aperture) WriteGerber(w io.Writer, apertureIndex int) error] *)
  Aperture_WriteGerber : Aperture -> Z -> IO error;
  (** the Primitive interface *)
  Primitive : Type;
  Primitive_Aperture : Primitive -> option Aperture;
  Primitive_WriteGerber : Primitive -> Z -> IO error;
  Primitive_MBB : Primitive -> MBB float64
}.

(** The zero value [MBB{}]. *)
Definition MBB_zero `{Collaborators} : MBB float64 :=
  mkMBB (mkPt float64_zero float64_zero) (mkPt float64_zero float64_zero).

(** Modelled from the spec: Aperture.ID is not in layers.go.  Called on a
    nil receiver, as WriteGerber does for a primitive without aperture, it
    answers the reserved key "default"; on an aperture it answers the
    aperture's identity key. *)
Definition ID `{Collaborators} (a : option Aperture) : string :=
  match a with
  | None => "default"
  | Some a' => Aperture_key a'
  end.

(** ** Layers *)

Section Layers.
Context `{Ext : Collaborators}.

(** [apertureMap] is [None] for Go's nil map, which a [Layer] not made by
    [makeLayer] has.  [Apertures] holds the pointers [Add] appends, which
    are never nil.  The back-reference [g] is neither set nor read in
    layers.go and is left out. *)
Record Layer : Type := mkLayer {
  Filename : string;
  Primitives : list Primitive;
  Apertures : list Aperture;
  apertureMap : option (gmap string Z);
  mbb : option (MBB float64)
}.

(** [m[k]] as an expression: the zero value when the key is absent, also
    on the nil map. *)
Definition map_index (m : option (gmap string Z)) (k : string) : Z :=
  match m with
  | None => 0
  | Some m' => default 0 (m' !! k)
  end.

(** [_, ok := m[k]] *)
Definition map_has (m : option (gmap string Z)) (k : string) : bool :=
  match m with
  | None => false
  | Some m' => bool_decide (is_Some (m' !! k))
  end.

(** One round of the loop of [Add]; [None] is the run-time panic of an
    assignment to an entry of the nil map. *)
Definition Add_body (l : Layer) (p : Primitive) : option Layer :=
  match Primitive_Aperture p with
  | None => Some l
  | Some a =>
      let id := ID (Some a) in
      if map_has (apertureMap l) id then Some l
      else
        match apertureMap l with
        | None => None
        | Some m =>
            Some (mkLayer (Filename l) (Primitives l) (Apertures l ++ [a])
                    (Some (<[id := Z.of_nat (length (Apertures l))]> m))
                    (mbb l))
        end
  end.

Fixpoint Add_loop (l : Layer) (ps : list Primitive) : option Layer :=
  match ps with
  | [] => Some l
  | p :: ps' =>
      match Add_body l p with
      | None => None
      | Some l' => Add_loop l' ps'
      end
  end.

Definition Add (l : Layer) (primitives : list Primitive) : option Layer :=
  match Add_loop l primitives with
  | None => None
  | Some l' =>
      Some (mkLayer (Filename l') (Primitives l' ++ primitives) (Apertures l')
              (apertureMap l') (mbb l'))
  end.

(** A sequence of [Add] calls, one per element of [batches]. *)
Fixpoint Adds (l : Layer) (batches : list (list Primitive)) : option Layer :=
  match batches with
  | [] => Some l
  | ps :: rest =>
      match Add l ps with
      | None => None
      | Some l' => Adds l' rest
      end
  end.

Definition LF : string := String (Ascii.ascii_of_nat 10) "".

Definition WriteGerber (l : Layer) : IO error :=
  (WriteString ("%FSLAX36Y36*%" +:+ LF) ;;;
   WriteString ("%MOMM*%" +:+ LF) ;;;
   WriteString ("%LPD*%" +:+ LF) ;;;
   WriteString ("%ADD11C,0.00100*%" +:+ LF) ;;;
   for_range_from 0 (Apertures l)
     (fun i a => Aperture_WriteGerber a (int_add 12 (Z.of_nat i))) ;;;
   for_range (Primitives l)
     (fun p =>
        let ai := map_index (apertureMap l) (ID (Primitive_Aperture p)) in
        Primitive_WriteGerber p (int_add 12 ai)) ;;;
   WriteString ("M02*" +:+ LF) ;;;
   Ret (None : error))%io.

(** The loop of [MBB] on the cache field; [i] is the index of the head of
    [ps].  The cache is set by round 0, so [Join] never has a nil receiver. *)
Fixpoint MBB_loop (i : nat) (ps : list Primitive) (c : option (MBB float64))
    : option (MBB float64) :=
  match ps with
  | [] => c
  | p :: ps' =>
      let v := Primitive_MBB p in
      match i with
      | O => MBB_loop (S i) ps' (Some v)
      | S _ => MBB_loop (S i) ps' (option_map (fun b => MBB_Join b v) c)
      end
  end.

(** [MBB] returns the box, the layer as it leaves it and the lines it
    logs. *)
Definition Layer_MBB (l : Layer) : MBB float64 * Layer * list string :=
  match mbb l with
  | Some b => (b, l, [])
  | None =>
      match MBB_loop 0 (Primitives l) (mbb l) with
      | Some b =>
          (b, mkLayer (Filename l) (Primitives l) (Apertures l)
                (apertureMap l) (Some b), [])
      | None =>
          (MBB_zero,
           mkLayer (Filename l) (Primitives l) (Apertures l)
             (apertureMap l) (Some MBB_zero),
           ["No primivites on layer " +:+ Filename l])
      end
  end.

(** ** The design object and its layer factories

    [Layers] holds the layers as they are when appended. *)
Record Gerber : Type := mkGerber {
  FilenamePrefix : string;
  Layers : list Layer
}.

(** [makeLayer] returns the design with the layer appended, and the layer. *)
Definition makeLayer (g : Gerber) (extension : string) : Gerber * Layer :=
  let layer :=
    mkLayer (FilenamePrefix g +:+ "." +:+ extension) [] []
      (Some {[ "default" := -1 ]}) None in
  (mkGerber (FilenamePrefix g) (Layers g ++ [layer]), layer).

Definition TopCopper (g : Gerber) := makeLayer g "gtl".
Definition TopSolderMask (g : Gerber) := makeLayer g "gts".
Definition TopSilkscreen (g : Gerber) := makeLayer g "gto".
Definition BottomCopper (g : Gerber) := makeLayer g "gbl".
Definition BottomSolderMask (g : Gerber) := makeLayer g "gbs".
Definition BottomSilkscreen (g : Gerber) := makeLayer g "gbo".
(** [fmt.Sprintf("gl%v", n)] prints [n] in decimal. *)
Definition LayerN (g : Gerber) (n : Z) := makeLayer g ("gl" +:+ pretty n).
Definition Drill (g : Gerber) := makeLayer g "drl".
Definition Outline (g : Gerber) := makeLayer g "gko".

End Layers.

(** ** What the claims speak of *)

Section Notions.
Context `{Ext : Collaborators}.

(** The three header directives and the default aperture, each on a line. *)
Definition header_lines : list string :=
  ["%FSLAX36Y36*%" +:+ LF; "%MOMM*%" +:+ LF; "%LPD*%" +:+ LF].

Definition default_aperture_line : string := "%ADD11C,0.00100*%" +:+ LF.

Definition trailer_line : string := "M02*" +:+ LF.

(** The bytes of a primitive drawn with select code [code]. *)
Definition drawn (p : Primitive) (code : Z) : string :=
  output (Primitive_WriteGerber p code).

(** The bytes of the primitives [ps] as [WriteGerber] draws them on [l]. *)
Definition draws (l : Layer) (ps : list Primitive) : string :=
  cat (map (fun p =>
              drawn p (int_add 12 (map_index (apertureMap l)
                                     (ID (Primitive_Aperture p))))) ps).

(** The bytes of the aperture definitions [WriteGerber] emits for [l]. *)
Definition definitions (l : Layer) : string :=
  cat (imap (fun i a =>
               output (Aperture_WriteGerber a (int_add 12 (Z.of_nat i))))
         (Apertures l)).

(** The identity keys the primitives [ps] report, null apertures skipped. *)
Definition keys_of (ps : list Primitive) : list string :=
  omap (fun p => Aperture_key <$> Primitive_Aperture p) ps.

(** The distinct elements of [ks] in the order in which they first occur. *)
Fixpoint first_seen (ks : list string) : list string :=
  match ks with
  | [] => []
  | k :: ks' => k :: filter (fun k' => k' <> k) (first_seen ks')
  end.

(** [l'] is [l] with a grown registry: same name and cache, the aperture
    sequence continued, every entry of the map kept. *)
Definition extends (l l' : Layer) : Prop :=
  Filename l' = Filename l /\ mbb l' = mbb l /\
  Apertures l `prefix_of` Apertures l' /\
  exists m m', apertureMap l = Some m /\ apertureMap l' = Some m' /\ m ⊆ m'.

(** The registry of [l] after primitives reporting the keys [ks] went
    through [Add] on a layer fresh from [makeLayer]. *)
Definition registered (l : Layer) (ks : list string) : Prop :=
  exists m, apertureMap l = Some m /\
    (forall k, is_Some (m !! k) <-> k = "default" \/ k ∈ ks) /\
    Aperture_key <$> Apertures l = first_seen ks.

(** No primitive of [ps] has an aperture that reports the reserved key. *)
Definition reserved_key_unused (ps : list Primitive) : Prop :=
  forall p a, p ∈ ps -> Primitive_Aperture p = Some a ->
    Aperture_key a <> "default".

(** The calls a client makes on a layer once it has it. *)
Inductive Call : Type :=
| CallAdd (ps : list Primitive)
| CallMBB.

Fixpoint exec (l : Layer) (cs : list Call) : option Layer :=
  match cs with
  | [] => Some l
  | CallAdd ps :: cs' =>
      match Add l ps with
      | None => None
      | Some l' => exec l' cs'
      end
  | CallMBB :: cs' => exec (Layer_MBB l).1.2 cs'
  end.

(** The apertures the primitives [ps] report, null apertures skipped. *)
Definition apertures_of (ps : list Primitive) : list Aperture :=
  omap Primitive_Aperture ps.

(** Of the apertures [aps], the first one of each identity key, in order. *)
Fixpoint first_by_key (aps : list Aperture) : list Aperture :=
  match aps with
  | [] => []
  | a :: aps' =>
      a :: filter (fun a' => Aperture_key a' <> Aperture_key a)
             (first_by_key aps')
  end.

(** The apertures that do not report the reserved key. *)
Definition unreserved (aps : list Aperture) : list Aperture :=
  filter (fun a => Aperture_key a <> "default") aps.

(** The map and the aperture sequence of [l] tell the same story: the
    sentinel is in place, the aperture at position [j] has its key mapped
    to [j], every other key of the map points at an aperture of that key,
    and the map has one entry per aperture besides the sentinel. *)
Definition coherent (l : Layer) : Prop :=
  exists m, apertureMap l = Some m /\ m !! "default" = Some (-1) /\
    (forall (j : nat) a, Apertures l !! j = Some a ->
       m !! Aperture_key a = Some (Z.of_nat j)) /\
    (forall k i, m !! k = Some i -> k <> "default" ->
       exists a, 0 <= i /\ Apertures l !! Z.to_nat i = Some a /\
                 Aperture_key a = k) /\
    size m = S (length (Apertures l)).


(** The union of the boxes [bs], none for no box, taken from the right. *)
Definition union_of (bs : list (MBB float64)) : option (MBB float64) :=
  foldr (fun b acc => Some (match acc with
                            | None => b
                            | Some c => MBB_Join b c
                            end)) None bs.

(** [Add] on arguments that may be nil interface values ([None]): the
    call [p.Aperture()] of the loop panics on a nil [Primitive]; a
    primitive that is not nil goes through the loop body as above. *)
Fixpoint Add_loop_any (l : Layer) (ps : list (option Primitive))
    : option Layer :=
  match ps with
  | [] => Some l
  | None :: _ => None
  | Some p :: ps' =>
      match Add_body l p with
      | None => None
      | Some l' => Add_loop_any l' ps'
      end
  end.

(** A loop that has returned has met no nil argument, so the arguments
    appended are all of them. *)
Definition Add_any (l : Layer) (primitives : list (option Primitive))
    : option Layer :=
  match Add_loop_any l primitives with
  | None => None
  | Some l' =>
      Some (mkLayer (Filename l') (Primitives l' ++ omap id primitives)
              (Apertures l') (apertureMap l') (mbb l'))
  end.

(** [l] with another primitive sequence. *)
Definition with_Primitives (l : Layer) (ps : list Primitive) : Layer :=
  mkLayer (Filename l) ps (Apertures l) (apertureMap l) (mbb l).

(** Factory calls in a row, one per extension, and the layers they return. *)
Fixpoint makeLayers (g : Gerber) (extensions : list string)
    : Gerber * list Layer :=
  match extensions with
  | [] => (g, [])
  | e :: es =>
      let '(g1, l) := makeLayer g e in
      let '(g2, ls) := makeLayers g1 es in
      (g2, l :: ls)
  end.

End Notions.

(** ** A small instance

    Integer coordinates, circular and square apertures named by shape and
    size, and flashes at a point. *)

Module Sample.

Record Ap : Type := mkAp { shape : string; size : string }.

Record Flash : Type := mkFlash { ap : option Ap; at_x : Z; at_y : Z }.

Definition join (a b : MBB Z) : MBB Z :=
  mkMBB (mkPt (Z.min (X (Min a)) (X (Min b))) (Z.min (Y (Min a)) (Y (Min b))))
        (mkPt (Z.max (X (Max a)) (X (Max b))) (Z.max (Y (Max a)) (Y (Max b)))).

Definition define (a : Ap) (code : Z) : IO error :=
  (WriteString ("%ADD" +:+ pretty code +:+ shape a +:+ "," +:+ size a
                +:+ "*%" +:+ LF) ;;;
   Ret (None : error))%io.

Definition flash (f : Flash) (code : Z) : IO error :=
  (WriteString ("D" +:+ pretty code +:+ "*" +:+ LF) ;;;
   WriteString ("X" +:+ pretty (at_x f) +:+ "Y" +:+ pretty (at_y f)
                +:+ "D03*" +:+ LF) ;;;
   Ret (None : error))%io.

Definition ext : Collaborators := {|
  float64 := Z;
  float64_zero := 0;
  MBB_Join := join;
  Aperture := Ap;
  Aperture_key := fun a => shape a +:+ size a;
  Aperture_WriteGerber := define;
  Primitive := Flash;
  Primitive_Aperture := ap;
  Primitive_WriteGerber := flash;
  Primitive_MBB := fun f => mkMBB (mkPt (at_x f) (at_y f)) (mkPt (at_x f) (at_y f))
|}.

Definition circle : Ap := mkAp "C" "0.50000".
Definition square : Ap := mkAp "R" "1.20000".

Definition f1 : Flash := mkFlash (Some circle) 1 2.
Definition f2 : Flash := mkFlash (Some square) 3 4.
Definition f3 : Flash := mkFlash None 5 6.
Definition f4 : Flash := mkFlash (Some circle) 70 80.
Definition f5 : Flash := mkFlash (Some (mkAp "R" "0.25000")) 9 9.

Definition board : Gerber (Ext := ext) := mkGerber "board" [].


(** The same layer, the registry written out. *)
Definition copper_layer : Layer (Ext := ext) :=
  mkLayer (Ext := ext) "board.gtl" [f1; f2; f3; f4] [circle; square]
    (Some (<["R1.20000" := 1]> (<["C0.50000" := 0]> {[ "default" := -1 ]})))
    None.

(** A layer given [f1] by [Add], to whose [Primitives] field [f2] was
    appended directly. *)
Definition bypassed : Layer (Ext := ext) :=
  mkLayer (Ext := ext) "board.gtl" [f1; f2] [circle]
    (Some (<["C0.50000" := 0]> {[ "default" := -1 ]})) None.

(** A layer given [f1; f2], its box not yet asked for. *)
Definition two : Layer (Ext := ext) :=
  mkLayer (Ext := ext) "board.gtl" [f1; f2] [circle; square]
    (Some (<["R1.20000" := 1]> (<["C0.50000" := 0]> {[ "default" := -1 ]})))
    None.

(** [two] after [MBB], then [Add] of [f3; f4], then [MBB] again: the cached
    box is that of [f1; f2], while [f4] lies at (70, 80). *)
Definition stale : Layer (Ext := ext) :=
  mkLayer (Ext := ext) "board.gtl" [f1; f2; f3; f4] [circle; square]
    (Some (<["R1.20000" := 1]> (<["C0.50000" := 0]> {[ "default" := -1 ]})))
    (Some (mkMBB (mkPt 1 2) (mkPt 3 4))).

(** [two] after [Add] of [f3; f4]. *)
Definition four : Layer (Ext := ext) :=
  mkLayer (Ext := ext) "board.gtl" [f1; f2; f3; f4] [circle; square]
    (Some (<["R1.20000" := 1]> (<["C0.50000" := 0]> {[ "default" := -1 ]})))
    None.

(** The same primitives in another order. *)
Definition four_shuffled : Layer (Ext := ext) :=
  mkLayer (Ext := ext) "board.gtl" [f4; f2; f1; f3] [circle; square]
    (Some (<["R1.20000" := 1]> (<["C0.50000" := 0]> {[ "default" := -1 ]})))
    None.

(** A layer that was not made by the factory, given [f3], which has no
    aperture. *)
Definition zero_value : Layer (Ext := ext) :=
  mkLayer (Ext := ext) "" [f3] [] None None.

End Sample.

(** * Properties *)

(** ** Strings *)

Lemma append_assoc (a b c : string) : (a +:+ b) +:+ c = a +:+ (b +:+ c).
Proof.
  induction a as [|x a IH]; [reflexivity|].
  change (String x ((a +:+ b) +:+ c) = String x (a +:+ (b +:+ c))).
  now f_equal.
Qed.

Lemma append_empty_r (a : string) : a +:+ "" = a.
Proof.
  induction a as [|x a IH]; [reflexivity|].
  change (String x (a +:+ "") = String x a).
  now f_equal.
Qed.

Lemma cat_app (xs ys : list string) : cat (xs ++ ys) = cat xs +:+ cat ys.
Proof.
  induction xs as [|x xs IH]; [reflexivity|].
  change (x +:+ cat (xs ++ ys) = (x +:+ cat xs) +:+ cat ys).
  now rewrite IH, append_assoc.
Qed.

(** ** Programs and sinks *)

Lemma run_bind {A B : Type} (W : Writer) (m : IO A) (f : A -> IO B) (s : sink W) :
  run W (bind m f) s =
  let '(a, s1, log1) := run W m s in
  let '(b, s2, log2) := run W (f a) s1 in
  (b, s2, (log1 ++ log2)%list).
Proof.
  revert s; induction m as [a | str k IH]; intros s; simpl.
  - now destruct (run W (f a) s) as [[b s2] log2].
  - destruct (sink_Write W s str) as [s' r].
    rewrite IH.
    destruct (run W (k r) s') as [[a s1] log1].
    now destruct (run W (f a) s1) as [[b s2] log2].
Qed.

Lemma result_bind {A B : Type} (W : Writer) (m : IO A) (f : A -> IO B) (s : sink W) :
  result W (bind m f) s = result W (f (result W m s)) (final W m s).
Proof.
  unfold result, final; rewrite run_bind.
  destruct (run W m s) as [[a s1] log1]; simpl.
  now destruct (run W (f a) s1) as [[b s2] log2].
Qed.

Lemma final_bind {A B : Type} (W : Writer) (m : IO A) (f : A -> IO B) (s : sink W) :
  final W (bind m f) s = final W (f (result W m s)) (final W m s).
Proof.
  unfold result, final; rewrite run_bind.
  destruct (run W m s) as [[a s1] log1]; simpl.
  now destruct (run W (f a) s1) as [[b s2] log2].
Qed.

Lemma calls_bind {A B : Type} (W : Writer) (m : IO A) (f : A -> IO B) (s : sink W) :
  calls W (bind m f) s =
  (calls W m s ++ calls W (f (result W m s)) (final W m s))%list.
Proof.
  unfold result, final, calls; rewrite run_bind.
  destruct (run W m s) as [[a s1] log1]; simpl.
  now destruct (run W (f a) s1) as [[b s2] log2].
Qed.

(** Unfolding one [Write] of a run. *)
Lemma run_Write {A : Type} (W : Writer) (str : string) (k : Z * error -> IO A)
    (s : sink W) :
  run W (Write str k) s =
  (result W (k (sink_Write W s str).2) (sink_Write W s str).1,
   final W (k (sink_Write W s str).2) (sink_Write W s str).1,
   (str, (sink_Write W s str).2)
     :: calls W (k (sink_Write W s str).2) (sink_Write W s str).1).
Proof.
  unfold result, final, calls; simpl.
  destruct (sink_Write W s str) as [s' r]; simpl.
  now destruct (run W (k r) s') as [[a s''] log].
Qed.

(** A buffer answers every write the same way, whatever it holds, so the
    value a program returns does not depend on the buffer's content, and
    what it writes is appended. *)
Lemma buffer_result {A : Type} (m : IO A) (b : string) :
  result Buffer m b = result Buffer m "".
Proof.
  revert b; induction m as [a | str k IH]; intros b; [reflexivity|].
  unfold result at 1 2; rewrite !run_Write; simpl.
  rewrite IH. symmetry. apply IH.
Qed.

Lemma buffer_final {A : Type} (m : IO A) (b : string) :
  final Buffer m b = b +:+ output m.
Proof.
  revert b; induction m as [a | str k IH]; intros b.
  - unfold output, final; simpl. now rewrite append_empty_r.
  - unfold output. unfold final at 1 2; rewrite !run_Write; simpl.
    rewrite IH. rewrite (IH _ str). apply append_assoc.
Qed.

Lemma output_bind {A B : Type} (m : IO A) (f : A -> IO B) :
  output (bind m f) = output m +:+ output (f (result Buffer m "")).
Proof.
  unfold output at 1. rewrite final_bind, buffer_final. reflexivity.
Qed.

Lemma output_WriteString (s : string) : output (WriteString s) = s.
Proof. reflexivity. Qed.

Lemma output_Ret {A : Type} (a : A) : output (Ret a) = "".
Proof. reflexivity. Qed.

Lemma output_for_range {A B : Type} (xs : list A) (body : A -> IO B) :
  output (for_range xs body) = cat (map (fun x => output (body x)) xs).
Proof.
  induction xs as [|x xs IH]; [reflexivity|].
  simpl. now rewrite output_bind, IH.
Qed.

Lemma output_for_range_from {A B : Type} (i : nat) (xs : list A)
    (body : nat -> A -> IO B) :
  output (for_range_from i xs body)
  = cat (imap (fun j x => output (body (i + j)%nat x)) xs).
Proof.
  revert i; induction xs as [|x xs IH]; intros i; [reflexivity|].
  simpl. rewrite output_bind, IH. rewrite Nat.add_0_r.
  do 2 f_equal. apply imap_ext; intros j y _; simpl.
  now rewrite Nat.add_succ_r.
Qed.

(** ** Machine integers *)

Lemma int_add_small (a b : Z) :
  int_min <= a + b <= int_max -> int_add a b = a + b.
Proof.
  unfold int_add, wrap, int_min, int_max; intros H.
  rewrite Z.mod_small; lia.
Qed.

(** ** Serialization *)

Section Serialization.
Context `{Ext : Collaborators}.

(** What [WriteGerber] leaves in a buffer. *)
Lemma WriteGerber_output (l : Layer) :
  output (WriteGerber l)
  = cat header_lines +:+ default_aperture_line +:+ definitions l
    +:+ draws l (Primitives l) +:+ trailer_line.
Proof.
  unfold WriteGerber.
  rewrite !output_bind, !output_WriteString, output_Ret.
  rewrite output_for_range_from, output_for_range.
  unfold definitions, draws, drawn, header_lines, default_aperture_line,
    trailer_line.
  cbn [cat foldr Nat.add].
  rewrite append_empty_r, !append_assoc.
  reflexivity.
Qed.

Lemma draws_app (l : Layer) (ps qs : list Primitive) :
  draws l (ps ++ qs) = draws l ps +:+ draws l qs.
Proof. unfold draws. now rewrite map_app, cat_app. Qed.

Lemma draws_cons (l : Layer) (p : Primitive) (ps : list Primitive) :
  draws l (p :: ps)
  = drawn p (int_add 12 (map_index (apertureMap l) (ID (Primitive_Aperture p))))
    +:+ draws l ps.
Proof. reflexivity. Qed.

(** Whatever the sink answers, [WriteGerber] returns nil. *)
Lemma WriteGerber_result (l : Layer) (W : Writer) (s : sink W) :
  result W (WriteGerber l) s = None.
Proof.
  unfold WriteGerber. rewrite !result_bind. reflexivity.
Qed.

End Serialization.

(** ** First occurrences *)

Lemma first_seen_elem (ks : list string) (k : string) :
  k ∈ first_seen ks <-> k ∈ ks.
Proof.
  induction ks as [|x ks IH]; simpl; [reflexivity|].
  rewrite !elem_of_cons, list_elem_of_filter, IH.
  destruct (decide (k = x)); tauto.
Qed.

Lemma first_seen_NoDup (ks : list string) : NoDup (first_seen ks).
Proof.
  induction ks as [|x ks IH]; simpl; constructor.
  - rewrite list_elem_of_filter. tauto.
  - now apply NoDup_filter.
Qed.

Lemma first_seen_snoc (ks : list string) (k : string) :
  first_seen (ks ++ [k])
  = if decide (k ∈ ks) then first_seen ks else (first_seen ks ++ [k])%list.
Proof.
  induction ks as [|x ks IH]; simpl; [reflexivity|].
  rewrite IH.
  destruct (decide (k ∈ ks)) as [Hin|Hnin].
  - rewrite decide_True by (now right). reflexivity.
  - rewrite filter_app.
    destruct (decide (k = x)) as [->|Hne].
    + rewrite decide_True by (now left).
      rewrite filter_cons_False by tauto. now rewrite app_nil_r.
    + rewrite decide_False by (rewrite elem_of_cons; tauto).
      rewrite filter_cons_True by assumption. reflexivity.
Qed.

Lemma first_seen_length (ks : list string) :
  length (first_seen ks) = size (list_to_set ks : gset string).
Proof.
  rewrite <- (size_list_to_set (C := gset string)) by apply first_seen_NoDup.
  f_equal. apply set_eq; intros k.
  now rewrite !elem_of_list_to_set, first_seen_elem.
Qed.

Lemma first_seen_shorter (ks : list string) :
  (length (first_seen ks) <= length ks)%nat.
Proof.
  induction ks as [|x ks IH]; simpl; [lia|].
  pose proof (length_filter (fun k' => k' <> x) (first_seen ks)). lia.
Qed.

(** ** The aperture registry *)

Section Registry.
Context `{Ext : Collaborators}.

Lemma keys_of_cons (p : Primitive) (ps : list Primitive) :
  keys_of (p :: ps)
  = match Primitive_Aperture p with
    | Some a => Aperture_key a :: keys_of ps
    | None => keys_of ps
    end.
Proof. unfold keys_of; simpl. now destruct (Primitive_Aperture p). Qed.

Lemma keys_of_shorter (ps : list Primitive) :
  (length (keys_of ps) <= length ps)%nat.
Proof.
  induction ps as [|p ps IH]; [reflexivity|].
  rewrite keys_of_cons. destruct (Primitive_Aperture p); simpl; lia.
Qed.

Lemma map_has_true (l : Layer) (m : gmap string Z) (k : string) :
  apertureMap l = Some m ->
  map_has (apertureMap l) k = true <-> is_Some (m !! k).
Proof.
  intros ->; unfold map_has. now rewrite bool_decide_eq_true.
Qed.

Lemma extends_refl (l : Layer) (m : gmap string Z) :
  apertureMap l = Some m -> extends l l.
Proof. intros Hm; repeat split; [reflexivity|]. now exists m, m. Qed.

Lemma extends_trans (l1 l2 l3 : Layer) :
  extends l1 l2 -> extends l2 l3 -> extends l1 l3.
Proof.
  intros (Hf & Hb & Hp & m1 & m2 & H1 & H2 & Hs)
         (Hf' & Hb' & Hp' & m2' & m3 & H2' & H3 & Hs').
  rewrite H2 in H2'; injection H2' as <-.
  repeat split; [congruence | congruence | now transitivity (Apertures l2) |].
  exists m1, m3; repeat split; [assumption.. | now transitivity m2].
Qed.

(** One round of the loop on a layer whose map is not nil. *)
Lemma Add_body_extends (l : Layer) (p : Primitive) (m : gmap string Z) :
  apertureMap l = Some m ->
  exists l', Add_body l p = Some l' /\ extends l l' /\
             Primitives l' = Primitives l.
Proof.
  intros Hm; unfold Add_body.
  destruct (Primitive_Aperture p) as [a|];
    [| exists l; eauto using extends_refl].
  destruct (map_has (apertureMap l) (ID (Some a))) eqn:Hhas;
    [exists l; eauto using extends_refl |].
  rewrite Hm. eexists; split; [reflexivity|]; split; [|reflexivity].
  repeat split; simpl; [now apply prefix_app_r|].
  exists m, (<[ID (Some a) := Z.of_nat (length (Apertures l))]> m).
  repeat split; [assumption|].
  apply insert_subseteq.
  rewrite Hm in Hhas; simpl in Hhas.
  apply bool_decide_eq_false in Hhas.
  now apply eq_None_not_Some.
Qed.

Lemma Add_loop_extends (ps : list Primitive) (l : Layer) (m : gmap string Z) :
  apertureMap l = Some m ->
  exists l', Add_loop l ps = Some l' /\ extends l l' /\
             Primitives l' = Primitives l.
Proof.
  revert l m; induction ps as [|p ps IH]; intros l m Hm; simpl.
  - exists l; eauto using extends_refl.
  - destruct (Add_body_extends l p m Hm) as (l1 & -> & Hext & Hps).
    destruct Hext as (Hf & Hb & Hp & m0 & m1 & H0 & H1 & Hs).
    destruct (IH l1 m1 H1) as (l2 & -> & Hext2 & Hps2).
    exists l2; split; [reflexivity|]; split; [| congruence].
    eapply extends_trans; [|exact Hext2].
    repeat split; [assumption..|]. now exists m0, m1.
Qed.

Lemma Add_extends (l : Layer) (ps : list Primitive) (m : gmap string Z) :
  apertureMap l = Some m ->
  exists l', Add l ps = Some l' /\ extends l l' /\
             Primitives l' = (Primitives l ++ ps)%list.
Proof.
  intros Hm; unfold Add.
  destruct (Add_loop_extends ps l m Hm) as (l1 & -> & Hext & Hps).
  eexists; split; [reflexivity|]; simpl; split; [|now rewrite Hps].
  destruct Hext as (Hf & Hb & Hp & m0 & m1 & H0 & H1 & Hs).
  repeat split; simpl; [assumption..|]. now exists m0, m1.
Qed.

Lemma Adds_extends (batches : list (list Primitive)) (l : Layer)
    (m : gmap string Z) :
  apertureMap l = Some m ->
  exists l', Adds l batches = Some l' /\ extends l l' /\
             Primitives l' = (Primitives l ++ concat batches)%list.
Proof.
  revert l m; induction batches as [|ps bs IH]; intros l m Hm; simpl.
  - exists l; rewrite app_nil_r; eauto using extends_refl.
  - destruct (Add_extends l ps m Hm) as (l1 & -> & Hext & Hps).
    pose proof Hext as (_ & _ & _ & m0 & m1 & _ & H1 & _).
    destruct (IH l1 m1 H1) as (l2 & -> & Hext2 & Hps2).
    exists l2; split; [reflexivity|]; split;
      [now apply (extends_trans l l1 l2) |].
    now rewrite Hps2, Hps, app_assoc.
Qed.

(** [Add] leaves the cache alone, on every layer. *)
Lemma Add_body_mbb (l l' : Layer) (p : Primitive) :
  Add_body l p = Some l' -> mbb l' = mbb l.
Proof.
  unfold Add_body; intros H.
  destruct (Primitive_Aperture p); [|congruence].
  destruct (map_has _ _); [congruence|].
  destruct (apertureMap l); [|discriminate].
  now injection H as <-.
Qed.

Lemma Add_loop_mbb (ps : list Primitive) (l l' : Layer) :
  Add_loop l ps = Some l' -> mbb l' = mbb l.
Proof.
  revert l; induction ps as [|p ps IH]; intros l; simpl; [congruence|].
  destruct (Add_body l p) as [l1|] eqn:H1; [|discriminate].
  intros H. rewrite (IH _ H). now apply Add_body_mbb with p.
Qed.

Lemma Add_mbb (l l' : Layer) (ps : list Primitive) :
  Add l ps = Some l' -> mbb l' = mbb l.
Proof.
  unfold Add. destruct (Add_loop l ps) as [l1|] eqn:H1; [|discriminate].
  intros H; injection H as <-; simpl. now apply Add_loop_mbb with ps.
Qed.

End Registry.

(** ** Deduplication *)

Section Deduplication.
Context `{Ext : Collaborators}.

Lemma keys_of_app (ps qs : list Primitive) :
  keys_of (ps ++ qs) = (keys_of ps ++ keys_of qs)%list.
Proof. apply omap_app. Qed.

Lemma reserved_key_unused_cons (p : Primitive) (ps : list Primitive) :
  reserved_key_unused (p :: ps) ->
  reserved_key_unused [p] /\ reserved_key_unused ps.
Proof.
  intros H; split; intros q a Hq; apply H.
  - apply list_elem_of_singleton in Hq as ->. now left.
  - now right.
Qed.

Lemma reserved_key_unused_app (ps qs : list Primitive) :
  reserved_key_unused (ps ++ qs) ->
  reserved_key_unused ps /\ reserved_key_unused qs.
Proof.
  intros H; split; intros q a Hq; apply H; apply elem_of_app; tauto.
Qed.

Lemma registered_fresh (g : Gerber) (extension : string) :
  registered (makeLayer g extension).2 [].
Proof.
  exists {[ "default" := -1 ]}; simpl; repeat split.
  - intros [v Hv]. apply lookup_singleton_Some in Hv as [<- _]. now left.
  - intros [-> | Hin]; [| now apply elem_of_nil in Hin].
    exists (-1). apply lookup_singleton_eq.
Qed.

Lemma Add_body_registered (l : Layer) (p : Primitive) (ks : list string) :
  registered l ks -> reserved_key_unused [p] ->
  exists l', Add_body l p = Some l' /\ registered l' (ks ++ keys_of [p]).
Proof.
  intros (m & Hm & Hdom & Haps) Hres.
  unfold Add_body; rewrite keys_of_cons.
  destruct (Primitive_Aperture p) as [a|] eqn:Hp.
  2:{ exists l; split; [reflexivity|]. rewrite app_nil_r. now exists m. }
  assert (Hne : Aperture_key a <> "default").
  { apply (Hres p a); [now left | assumption]. }
  change (keys_of []) with (@nil string). simpl ID.
  destruct (map_has (apertureMap l) (Aperture_key a)) eqn:Hhas.
  - exists l; split; [reflexivity|].
    apply (map_has_true l m) in Hhas; [|assumption].
    apply Hdom in Hhas as [? | Hin]; [contradiction|].
    exists m; split; [assumption|]; split.
    + intros k; rewrite Hdom, elem_of_app, list_elem_of_singleton.
      split; [tauto|]. intros [? | [? | ->]]; tauto.
    + rewrite first_seen_snoc, decide_True by assumption. exact Haps.
  - assert (Hnin : Aperture_key a ∉ ks).
    { intros Hin. assert (Ht : map_has (apertureMap l) (Aperture_key a) = true).
      { apply (map_has_true l m); [assumption|]. apply Hdom. now right. }
      congruence. }
    rewrite Hm. eexists; split; [reflexivity|].
    eexists; split; [reflexivity|]; simpl; split.
    + intros k. rewrite lookup_insert_is_Some, Hdom, elem_of_app,
        list_elem_of_singleton.
      destruct (decide (Aperture_key a = k)); intuition congruence.
    + rewrite fmap_app, Haps, first_seen_snoc, decide_False by assumption.
      reflexivity.
Qed.

Lemma Add_loop_registered (ps : list Primitive) (l : Layer) (ks : list string) :
  registered l ks -> reserved_key_unused ps ->
  exists l', Add_loop l ps = Some l' /\ registered l' (ks ++ keys_of ps).
Proof.
  revert l ks; induction ps as [|p ps IH]; intros l ks Hreg Hres; simpl.
  - exists l. now rewrite app_nil_r.
  - apply reserved_key_unused_cons in Hres as [Hp Hps].
    destruct (Add_body_registered l p ks Hreg Hp) as (l1 & -> & Hreg1).
    destruct (IH l1 _ Hreg1 Hps) as (l2 & -> & Hreg2).
    exists l2; split; [reflexivity|].
    rewrite <- app_assoc, <- keys_of_app in Hreg2. exact Hreg2.
Qed.

Lemma Add_registered (l : Layer) (ps : list Primitive) (ks : list string) :
  registered l ks -> reserved_key_unused ps ->
  exists l', Add l ps = Some l' /\ registered l' (ks ++ keys_of ps).
Proof.
  intros Hreg Hres; unfold Add.
  destruct (Add_loop_registered ps l ks Hreg Hres) as (l1 & -> & Hreg1).
  eexists; split; [reflexivity|]. exact Hreg1.
Qed.

Lemma Adds_registered (batches : list (list Primitive)) (l : Layer)
    (ks : list string) :
  registered l ks -> reserved_key_unused (concat batches) ->
  exists l', Adds l batches = Some l' /\
             registered l' (ks ++ keys_of (concat batches)).
Proof.
  revert l ks; induction batches as [|ps bs IH]; intros l ks Hreg Hres; simpl.
  - exists l. now rewrite app_nil_r.
  - simpl in Hres. apply reserved_key_unused_app in Hres as [Hps Hbs].
    destruct (Add_registered l ps ks Hreg Hps) as (l1 & -> & Hreg1).
    destruct (IH l1 _ Hreg1 Hbs) as (l2 & -> & Hreg2).
    exists l2; split; [reflexivity|].
    now rewrite keys_of_app, app_assoc.
Qed.

End Deduplication.

(** * The claims *)

(** C1. What [WriteGerber] writes is, in this order: the three header
    directives [%FSLAX36Y36*%], [%MOMM*%], [%LPD*%], each on a line ended by
    a line feed; the default aperture line [%ADD11C,0.00100*%]; for each
    aperture of the registry, in registry order, its definition with select
    code 12 + index, the first one with 12; each primitive's serialization
    in insertion order; the trailer line [M02*]. *)
Theorem WriteGerber_layout `{Ext : Collaborators} (l : Layer) :
  Z.of_nat (length (Apertures l)) + 11 <= int_max ->
  output (WriteGerber l)
  = ("%FSLAX36Y36*%" +:+ LF) +:+ ("%MOMM*%" +:+ LF) +:+ ("%LPD*%" +:+ LF)
    +:+ ("%ADD11C,0.00100*%" +:+ LF)
    +:+ cat (imap (fun i a =>
                     output (Aperture_WriteGerber a (12 + Z.of_nat i)))
               (Apertures l))
    +:+ cat (map (fun p =>
                    output (Primitive_WriteGerber p
                              (int_add 12 (map_index (apertureMap l)
                                             (ID (Primitive_Aperture p))))))
               (Primitives l))
    +:+ ("M02*" +:+ LF).
Proof.
  intros Hlen. rewrite WriteGerber_output.
  unfold header_lines, default_aperture_line, trailer_line, definitions,
    draws, drawn.
  rewrite (imap_ext _
             (fun i a => output (Aperture_WriteGerber a (12 + Z.of_nat i)))).
  - cbn [cat foldr]. rewrite append_empty_r, !append_assoc. reflexivity.
  - intros i a Hi; simpl.
    apply lookup_lt_Some in Hi.
    rewrite int_add_small; [reflexivity|].
    unfold int_min, int_max in *. lia.
Qed.

Lemma WriteGerber_layout_witness :
  Z.of_nat (length (Apertures (Ext := Sample.ext) Sample.copper_layer)) + 11
    <= int_max /\
  output (WriteGerber (Ext := Sample.ext) Sample.copper_layer)
  = ("%FSLAX36Y36*%" +:+ LF) +:+ ("%MOMM*%" +:+ LF) +:+ ("%LPD*%" +:+ LF)
    +:+ ("%ADD11C,0.00100*%" +:+ LF)
    +:+ cat (imap (fun i a =>
                     output (Aperture_WriteGerber (Collaborators := Sample.ext)
                               a (12 + Z.of_nat i)))
               (Apertures (Ext := Sample.ext) Sample.copper_layer))
    +:+ cat (map (fun p =>
                    output (Primitive_WriteGerber (Collaborators := Sample.ext) p
                              (int_add 12
                                 (map_index
                                    (apertureMap (Ext := Sample.ext)
                                       Sample.copper_layer)
                                    (ID (Primitive_Aperture p))))))
               (Primitives (Ext := Sample.ext) Sample.copper_layer))
    +:+ ("M02*" +:+ LF).
Proof.
  assert (H : Z.of_nat (length (Apertures (Ext := Sample.ext)
                                  Sample.copper_layer)) + 11 <= int_max)
    by (vm_compute; discriminate).
  split; [exact H | exact (WriteGerber_layout Sample.copper_layer H)].
Defined.

(** The output around one primitive of the layer. *)
Lemma WriteGerber_output_at `{Ext : Collaborators} (l : Layer) (p : Primitive)
    (pre post : list Primitive) (code : Z) :
  Primitives l = (pre ++ p :: post)%list ->
  int_add 12 (map_index (apertureMap l) (ID (Primitive_Aperture p))) = code ->
  output (WriteGerber l)
  = cat header_lines +:+ default_aperture_line +:+ definitions l
    +:+ draws l pre +:+ drawn p code +:+ draws l post +:+ trailer_line.
Proof.
  intros Hps Hcode.
  rewrite WriteGerber_output, Hps, draws_app, draws_cons, Hcode.
  now rewrite !append_assoc.
Qed.




(** C10. A primitive with an aperture whose identity key is not in the
    registry map is looked up to the zero value 0 and serialized with
    select code 12, the code of the aperture at index 0; [WriteGerber]
    still runs to its end and returns nil. *)
Theorem unregistered_aperture_draws_with_12 `{Ext : Collaborators} (l : Layer)
    (p : Primitive) (a : Aperture) :
  Primitive_Aperture p = Some a ->
  map_has (apertureMap l) (Aperture_key a) = false ->
  map_index (apertureMap l) (ID (Primitive_Aperture p)) = 0 /\
  int_add 12 (map_index (apertureMap l) (ID (Primitive_Aperture p))) = 12 /\
  int_add 12 (Z.of_nat 0) = 12 /\
  (forall (W : Writer) (s : sink W), result W (WriteGerber l) s = None) /\
  forall pre post, Primitives l = (pre ++ p :: post)%list ->
    output (WriteGerber l)
    = cat header_lines +:+ default_aperture_line +:+ definitions l
      +:+ draws l pre +:+ drawn p 12 +:+ draws l post +:+ trailer_line.
Proof.
  intros Hp Hhas.
  assert (Hidx : map_index (apertureMap l) (ID (Primitive_Aperture p)) = 0).
  { rewrite Hp; simpl. unfold map_has in Hhas.
    destruct (apertureMap l) as [m|]; simpl; [|reflexivity].
    apply bool_decide_eq_false in Hhas.
    apply eq_None_not_Some in Hhas. now rewrite Hhas. }
  assert (Hcode : int_add 12 (map_index (apertureMap l)
                                (ID (Primitive_Aperture p))) = 12).
  { rewrite Hidx. reflexivity. }
  split; [exact Hidx|]. split; [exact Hcode|]. split; [reflexivity|].
  split; [intros W s; apply WriteGerber_result|].
  intros pre post Hps. now apply WriteGerber_output_at.
Qed.

Lemma unregistered_aperture_draws_with_12_witness :
  output (WriteGerber (Ext := Sample.ext) Sample.bypassed)
  = cat header_lines +:+ default_aperture_line
    +:+ definitions (Ext := Sample.ext) Sample.bypassed
    +:+ draws (Ext := Sample.ext) Sample.bypassed [Sample.f1]
    +:+ drawn (Ext := Sample.ext) Sample.f2 12
    +:+ draws (Ext := Sample.ext) Sample.bypassed []
    +:+ trailer_line.
Proof.
  assert (H : map_has (apertureMap (Ext := Sample.ext) Sample.bypassed)
                (Aperture_key (Collaborators := Sample.ext) Sample.square)
              = false) by (vm_compute; reflexivity).
  exact (proj2 (proj2 (proj2 (proj2
    (unregistered_aperture_draws_with_12 (Ext := Sample.ext) Sample.bypassed
       Sample.f2 Sample.square eq_refl H)))) [Sample.f1] [] eq_refl).
Defined.

(** C4 does not hold as stated.  On a sink that fails every write, a fresh
    layer's [WriteGerber] sees its first write fail with the sink's error
    and yet returns nil: the failure does not reach the caller. *)
Lemma WriteGerber_drops_write_failure :
  calls (Broken "EIO")
    (WriteGerber (makeLayer (Ext := Sample.ext) Sample.board "gtl").2) tt
    !! 0%nat
  = Some ("%FSLAX36Y36*%" +:+ LF, (0, Some "EIO")) /\
  result (Broken "EIO")
    (WriteGerber (makeLayer (Ext := Sample.ext) Sample.board "gtl").2) tt
  = None.
Proof. split; reflexivity. Qed.

(** What the loops of [WriteGerber] hand to the sink. *)
Lemma final_WriteString (W : Writer) (x : string) (s : sink W) :
  final W (WriteString x) s = (sink_Write W s x).1.
Proof.
  unfold final, WriteString; simpl. now destruct (sink_Write W s x).
Qed.

Lemma calls_of_WriteString (W : Writer) (x : string) (s : sink W) :
  calls W (WriteString x) s = [(x, (sink_Write W s x).2)].
Proof.
  unfold calls, WriteString; simpl. now destruct (sink_Write W s x).
Qed.

Lemma for_range_in_turn {A B : Type} (W : Writer) (xs : list A)
    (body : A -> IO B) (s : sink W) :
  (calls W (for_range xs body) s, final W (for_range xs body) s)
  = calls_in_turn W (map body xs) s.
Proof.
  revert s; induction xs as [|x xs IH]; intros s; [reflexivity|].
  cbn [for_range map calls_in_turn].
  rewrite calls_bind, final_bind, <- IH. reflexivity.
Qed.

Lemma for_range_from_in_turn {A B : Type} (W : Writer) (i : nat)
    (xs : list A) (body : nat -> A -> IO B) (s : sink W) :
  (calls W (for_range_from i xs body) s,
   final W (for_range_from i xs body) s)
  = calls_in_turn W (imap (fun j x => body (i + j)%nat x) xs) s.
Proof.
  revert i s; induction xs as [|x xs IH]; intros i s; [reflexivity|].
  cbn [for_range_from imap calls_in_turn].
  rewrite calls_bind, final_bind, Nat.add_0_r.
  rewrite (imap_ext _ (fun j y => body (S i + j)%nat y))
    by (intros j y _; simpl; f_equal; lia).
  rewrite <- IH. reflexivity.
Qed.

(** C4, as the code has it. [WriteGerber] drops what every write returns:
    its error return is nil on every sink, failing or not.  It neither
    retries nor buffers nor rolls back: on a layer fresh from the factory
    the five fixed lines are handed to the sink once each, in order,
    whatever the sink answers; and on every layer the writes are the four
    leading lines, once each, then what the definitions of the apertures
    and the serializations of the primitives write, each of them run once
    and in order, then the trailer once, every write going to the sink as
    the write before has left it. *)
Theorem WriteGerber_returns_nil `{Ext : Collaborators} (l : Layer) (W : Writer)
    (s : sink W) (g : Gerber) (extension : string) :
  result W (WriteGerber l) s = None /\
  (calls W (WriteGerber (makeLayer g extension).2) s).*1
  = ["%FSLAX36Y36*%" +:+ LF; "%MOMM*%" +:+ LF; "%LPD*%" +:+ LF;
     "%ADD11C,0.00100*%" +:+ LF; "M02*" +:+ LF] /\
  let h1 := "%FSLAX36Y36*%" +:+ LF in
  let h2 := "%MOMM*%" +:+ LF in
  let h3 := "%LPD*%" +:+ LF in
  let h4 := "%ADD11C,0.00100*%" +:+ LF in
  let t := "M02*" +:+ LF in
  let s1 := (sink_Write W s h1).1 in
  let s2 := (sink_Write W s1 h2).1 in
  let s3 := (sink_Write W s2 h3).1 in
  let s4 := (sink_Write W s3 h4).1 in
  let defs :=
    calls_in_turn W
      (imap (fun i a => Aperture_WriteGerber a (int_add 12 (Z.of_nat i)))
         (Apertures l)) s4 in
  let draws :=
    calls_in_turn W
      (map (fun p =>
              Primitive_WriteGerber p
                (int_add 12 (map_index (apertureMap l)
                               (ID (Primitive_Aperture p)))))
         (Primitives l)) defs.2 in
  calls W (WriteGerber l) s
  = ([(h1, (sink_Write W s h1).2); (h2, (sink_Write W s1 h2).2);
      (h3, (sink_Write W s2 h3).2); (h4, (sink_Write W s3 h4).2)]
     ++ defs.1 ++ draws.1 ++ [(t, (sink_Write W draws.2 t).2)])%list.
Proof.
  split; [apply WriteGerber_result|]. split.
  - unfold WriteGerber, calls; simpl.
    destruct (sink_Write W s _) as [s1 r1].
    destruct (sink_Write W s1 _) as [s2 r2].
    destruct (sink_Write W s2 _) as [s3 r3].
    destruct (sink_Write W s3 _) as [s4 r4].
    destruct (sink_Write W s4 _) as [s5 r5].
    reflexivity.
  - cbv zeta. unfold WriteGerber.
    rewrite !calls_bind, ?final_bind, !calls_of_WriteString,
      !final_WriteString.
    pose proof (for_range_from_in_turn W 0 (Apertures l)
                  (fun i a => Aperture_WriteGerber a (int_add 12 (Z.of_nat i)))
                  ((sink_Write W
                      (sink_Write W
                         (sink_Write W (sink_Write W s ("%FSLAX36Y36*%" +:+ LF)).1
                            ("%MOMM*%" +:+ LF)).1
                         ("%LPD*%" +:+ LF)).1
                      ("%ADD11C,0.00100*%" +:+ LF)).1)) as Hdefs.
    cbn [Nat.add] in Hdefs. rewrite <- Hdefs. cbn [fst snd].
    rewrite <- for_range_in_turn. cbn [fst snd].
    reflexivity.
Qed.

(** C7. [Add] on a layer whose map is not nil, as every layer from the
    factory has it and every [Add] leaves it, does not fail and appends
    all its arguments, those without aperture too, in the order given;
    over several calls the primitives follow in the order of the calls. *)
Theorem Add_appends_all `{Ext : Collaborators} (l : Layer)
    (ps : list Primitive) (batches : list (list Primitive)) :
  is_Some (apertureMap l) ->
  (exists l', Add l ps = Some l' /\
              Primitives l' = (Primitives l ++ ps)%list /\
              is_Some (apertureMap l')) /\
  (exists l', Adds l batches = Some l' /\
              Primitives l' = (Primitives l ++ concat batches)%list) /\
  (forall g extension, is_Some (apertureMap (makeLayer g extension).2)).
Proof.
  intros [m Hm]. split; [|split].
  - destruct (Add_extends l ps m Hm)
      as (l' & HAdd & (_ & _ & _ & m0 & m' & _ & Hm' & _) & Hps).
    exists l'. split; [assumption|]. split; [assumption|]. now exists m'.
  - destruct (Adds_extends batches l m Hm) as (l' & HAdds & _ & Hps).
    now exists l'.
  - intros g extension; simpl. now eexists.
Qed.

Lemma Add_appends_all_witness :
  exists l' : Layer (Ext := Sample.ext),
    Adds (Ext := Sample.ext) (TopCopper Sample.board).2
      [[Sample.f1; Sample.f2]; [Sample.f3; Sample.f4]] = Some l' /\
    Primitives l'
    = (Primitives (TopCopper (Ext := Sample.ext) Sample.board).2
       ++ concat [[Sample.f1; Sample.f2]; [Sample.f3; Sample.f4]])%list.
Proof.
  assert (H : is_Some (apertureMap (Ext := Sample.ext)
                         (TopCopper Sample.board).2))
    by (simpl; eexists; reflexivity).
  exact (proj1 (proj2
    (Add_appends_all (Ext := Sample.ext) (TopCopper Sample.board).2 []
       [[Sample.f1; Sample.f2]; [Sample.f3; Sample.f4]] H))).
Defined.

(** A layer that was not made by the factory has the nil map, and [Add]
    of a primitive with an aperture panics on it. *)
Lemma Add_on_nil_map_panics :
  Add (Ext := Sample.ext) (mkLayer (Ext := Sample.ext) "x" [] [] None None)
    [Sample.f1] = None.
Proof. reflexivity. Qed.

(** C9. Every factory call makes a layer named by the design's prefix, a
    dot and the extension of the kind, appends it to the design's layers
    and starts its registry with the single entry "default" -> -1.  Nothing
    is checked: asking twice for the same extension gives two layers of one
    name, both in the design. *)
Theorem makeLayer_spec `{Ext : Collaborators} (g : Gerber) (extension : string)
    (n : Z) :
  let '(g1, l1) := makeLayer g extension in
  let '(g2, l2) := makeLayer g1 extension in
  (Filename l1 = FilenamePrefix g +:+ "." +:+ extension /\
   Layers g1 = (Layers g ++ [l1])%list /\
   FilenamePrefix g1 = FilenamePrefix g /\
   apertureMap l1 = Some {[ "default" := -1 ]} /\
   Primitives l1 = [] /\ Apertures l1 = [] /\ mbb l1 = None) /\
  (Layers g2 = (Layers g ++ [l1; l2])%list /\ Filename l2 = Filename l1) /\
  (Filename (TopCopper g).2 = FilenamePrefix g +:+ ".gtl" /\
   Filename (TopSolderMask g).2 = FilenamePrefix g +:+ ".gts" /\
   Filename (TopSilkscreen g).2 = FilenamePrefix g +:+ ".gto" /\
   Filename (BottomCopper g).2 = FilenamePrefix g +:+ ".gbl" /\
   Filename (BottomSolderMask g).2 = FilenamePrefix g +:+ ".gbs" /\
   Filename (BottomSilkscreen g).2 = FilenamePrefix g +:+ ".gbo" /\
   Filename (LayerN g n).2 = FilenamePrefix g +:+ ".gl" +:+ pretty n /\
   Filename (Drill g).2 = FilenamePrefix g +:+ ".drl" /\
   Filename (Outline g).2 = FilenamePrefix g +:+ ".gko") /\
  Forall (fun f : Gerber -> Gerber * Layer =>
            exists e, forall g', f g' = makeLayer g' e)
    [TopCopper; TopSolderMask; TopSilkscreen; BottomCopper; BottomSolderMask;
     BottomSilkscreen; fun g' => LayerN g' n; Drill; Outline].
Proof.
  simpl. split; [repeat split|]. split.
  - split; [|reflexivity]. now rewrite <- app_assoc.
  - split; [repeat split|].
    repeat (constructor; [eexists; intros g'; reflexivity|]). constructor.
Qed.

(** ** The bounding-box cache *)

Section Cache.
Context `{Ext : Collaborators}.

(** After round 0 the loop is a left fold of [Join]. *)
Lemma MBB_loop_fold (ps : list Primitive) (i : nat) (b : MBB float64) :
  MBB_loop (S i) ps (Some b)
  = Some (foldl (fun acc q => MBB_Join acc (Primitive_MBB q)) b ps).
Proof.
  revert i b; induction ps as [|p ps IH]; intros i b; simpl; [reflexivity|].
  apply IH.
Qed.

Lemma Layer_MBB_cached (l : Layer) (b : MBB float64) :
  mbb l = Some b -> Layer_MBB l = (b, l, []).
Proof. unfold Layer_MBB; now intros ->. Qed.

(** Every call of [MBB] leaves the box it returns in the cache. *)
Lemma Layer_MBB_caches (l : Layer) :
  mbb (Layer_MBB l).1.2 = Some (Layer_MBB l).1.1.
Proof.
  unfold Layer_MBB.
  destruct (mbb l) as [b|] eqn:Hc; simpl; [assumption|].
  now destruct (MBB_loop 0 (Primitives l) None).
Qed.

Lemma exec_keeps_cache (cs : list Call) (l l' : Layer) (b : MBB float64) :
  mbb l = Some b -> exec l cs = Some l' -> mbb l' = Some b.
Proof.
  revert l; induction cs as [|[ps|] cs IH]; intros l Hc; simpl.
  - now intros [= <-].
  - destruct (Add l ps) as [l1|] eqn:HAdd; [|discriminate].
    apply IH. rewrite <- Hc. now apply Add_mbb with ps.
  - apply IH. now rewrite (Layer_MBB_cached l b Hc).
Qed.

End Cache.

(** C5. Once a call of [MBB] has filled the cache, every later call of
    [MBB] returns the cached box and changes nothing, whatever [Add] calls
    came in between and whatever the added primitives cover: [Add] never
    touches the cache field. *)
Theorem MBB_cache_survives_Add `{Ext : Collaborators} (l l2 : Layer)
    (cs : list Call) :
  exec (Layer_MBB l).1.2 cs = Some l2 ->
  Layer_MBB l2 = ((Layer_MBB l).1.1, l2, []) /\
  mbb l2 = Some (Layer_MBB l).1.1 /\
  (forall l' ps l'', Add l' ps = Some l'' -> mbb l'' = mbb l').
Proof.
  intros Hexec.
  pose proof (exec_keeps_cache cs _ l2 _ (Layer_MBB_caches l) Hexec) as Hc.
  split; [now apply Layer_MBB_cached|]. split; [exact Hc|].
  intros l' ps l''. apply Add_mbb.
Qed.

Lemma MBB_cache_survives_Add_witness :
  Layer_MBB (Ext := Sample.ext) Sample.stale
  = (mkMBB (mkPt 1 2) (mkPt 3 4), Sample.stale, []).
Proof.
  assert (H : exec (Ext := Sample.ext)
                (Layer_MBB (Ext := Sample.ext) Sample.two).1.2
                [@CallAdd Sample.ext [Sample.f3; Sample.f4]; @CallMBB Sample.ext]
              = Some Sample.stale) by (vm_compute; reflexivity).
  exact (proj1 (MBB_cache_survives_Add (Ext := Sample.ext) Sample.two
                  Sample.stale [@CallAdd Sample.ext [Sample.f3; Sample.f4]; @CallMBB Sample.ext] H)).
Defined.

(** C8. A call of [MBB] that finds no cached box: on a layer without
    primitives it logs one line, caches and returns the zero box, whose
    corners are both the origin, and does not fail; on any other layer it
    caches and returns the left fold that starts from the first primitive's
    box and joins each later primitive's box in order. *)
Theorem MBB_uncached `{Ext : Collaborators} (l : Layer) :
  mbb l = None ->
  (Primitives l = [] ->
   Layer_MBB l
   = (MBB_zero,
      mkLayer (Filename l) (Primitives l) (Apertures l) (apertureMap l)
        (Some MBB_zero),
      ["No primivites on layer " +:+ Filename l]) /\
   Min MBB_zero = Max MBB_zero /\
   Min MBB_zero = mkPt float64_zero float64_zero) /\
  (forall p ps, Primitives l = p :: ps ->
   let b := foldl (fun acc q => MBB_Join acc (Primitive_MBB q))
              (Primitive_MBB p) ps in
   Layer_MBB l
   = (b, mkLayer (Filename l) (Primitives l) (Apertures l) (apertureMap l)
           (Some b), [])).
Proof.
  intros Hc; split.
  - intros Hps. unfold Layer_MBB. rewrite Hc, Hps. simpl. auto.
  - intros p ps Hps b. unfold Layer_MBB. rewrite Hc, Hps. simpl.
    now rewrite MBB_loop_fold.
Qed.

Lemma MBB_uncached_witness :
  Layer_MBB (Ext := Sample.ext) Sample.two
  = (mkMBB (mkPt 1 2) (mkPt 3 4),
     mkLayer (Ext := Sample.ext) "board.gtl" [Sample.f1; Sample.f2]
       [Sample.circle; Sample.square]
       (apertureMap (Ext := Sample.ext) Sample.two)
       (Some (mkMBB (mkPt 1 2) (mkPt 3 4))), []).
Proof.
  exact (proj2 (MBB_uncached (Ext := Sample.ext) Sample.two eq_refl)
           Sample.f1 [Sample.f2] eq_refl).
Defined.

(** C6. An identity key registered with index [i] keeps that index, and
    with it the select code 12 + i, through every later [Add]; the
    apertures already in the sequence keep their positions, because
    registration only appends.  A new key is given the length of the
    sequence before the append, which is the position its aperture then
    occupies. *)
Theorem registry_index_stable `{Ext : Collaborators} (l : Layer)
    (m : gmap string Z) (k : string) (i : Z)
    (batches : list (list Primitive)) :
  apertureMap l = Some m -> m !! k = Some i ->
  (exists l', Adds l batches = Some l' /\
     map_index (apertureMap l') k = i /\
     int_add 12 (map_index (apertureMap l') k)
     = int_add 12 (map_index (apertureMap l) k) /\
     (forall (j : nat) a, Apertures l !! j = Some a ->
                          Apertures l' !! j = Some a)) /\
  (forall p a, Primitive_Aperture p = Some a ->
     m !! Aperture_key a = None ->
     exists l1, Add_body l p = Some l1 /\
       Apertures l1 = (Apertures l ++ [a])%list /\
       Apertures l1 !! length (Apertures l) = Some a /\
       map_index (apertureMap l1) (Aperture_key a)
       = Z.of_nat (length (Apertures l))).
Proof.
  intros Hm Hk; split.
  - destruct (Adds_extends batches l m Hm)
      as (l' & HAdds & (_ & _ & Hpre & m0 & m' & H0 & Hm' & Hsub) & _).
    rewrite Hm in H0; injection H0 as <-.
    assert (Hk' : m' !! k = Some i) by exact (lookup_weaken _ _ _ _ Hk Hsub).
    assert (Hidx : map_index (apertureMap l') k = i).
    { rewrite Hm'; simpl. now rewrite Hk'. }
    exists l'. split; [assumption|]. split; [exact Hidx|]. split.
    + rewrite Hidx, Hm; simpl. now rewrite Hk.
    + intros j a Hj. exact (prefix_lookup_Some _ _ _ _ Hj Hpre).
  - intros p a Hp Hnone. unfold Add_body. rewrite Hp, Hm; simpl.
    rewrite bool_decide_eq_false_2 by (rewrite Hnone; apply is_Some_None).
    eexists; split; [reflexivity|]; simpl.
    split; [reflexivity|]. split.
    + rewrite lookup_app_r by reflexivity. now rewrite Nat.sub_diag.
    + now rewrite lookup_insert_eq.
Qed.

Lemma registry_index_stable_witness :
  exists l' : Layer (Ext := Sample.ext),
    Adds (Ext := Sample.ext) Sample.two [[Sample.f3]; [Sample.f5; Sample.f1]]
    = Some l' /\
    map_index (apertureMap l') "R1.20000" = 1.
Proof.
  destruct (registry_index_stable (Ext := Sample.ext) Sample.two
              (<["R1.20000" := 1]>
                 (<["C0.50000" := 0]> {[ "default" := -1 ]}))
              "R1.20000" 1 [[Sample.f3]; [Sample.f5; Sample.f1]]
              eq_refl eq_refl) as [(l' & HAdds & Hidx & _) _].
  exists l'. split; [exact HAdds | exact Hidx].
Defined.

(** C3. A run of [Add] calls on a layer fresh from the factory, with
    primitives none of whose apertures reports the reserved key, never
    fails and leaves in [Apertures] one aperture per distinct identity key
    reported, in the order in which the keys were first seen: as many
    entries as there are distinct keys, at most as many as primitives, and
    no key twice.  [Add] of a primitive whose key is in the map changes
    neither the sequence nor the map. *)
Theorem Add_deduplicates `{Ext : Collaborators} (g : Gerber)
    (extension : string) (batches : list (list Primitive)) :
  reserved_key_unused (concat batches) ->
  (exists l, Adds (makeLayer g extension).2 batches = Some l /\
     Aperture_key <$> Apertures l = first_seen (keys_of (concat batches)) /\
     NoDup (Aperture_key <$> Apertures l) /\
     length (Apertures l)
     = size (list_to_set (keys_of (concat batches)) : gset string) /\
     (length (Apertures l) <= length (concat batches))%nat /\
     (forall k, k ∈ Aperture_key <$> Apertures l
                <-> k ∈ keys_of (concat batches))) /\
  (forall (l : Layer) p a, Primitive_Aperture p = Some a ->
     map_has (apertureMap l) (Aperture_key a) = true ->
     exists l', Add l [p] = Some l' /\ Apertures l' = Apertures l /\
                apertureMap l' = apertureMap l).
Proof.
  intros Hres; split.
  - destruct (Adds_registered batches _ [] (registered_fresh g extension) Hres)
      as (l & HAdds & m & Hm & Hdom & Haps).
    simpl in Haps.
    exists l. split; [assumption|]. split; [assumption|].
    split; [rewrite Haps; apply first_seen_NoDup|].
    split; [|split].
    + rewrite <- (length_fmap Aperture_key), Haps. apply first_seen_length.
    + rewrite <- (length_fmap Aperture_key), Haps.
      etransitivity; [apply first_seen_shorter | apply keys_of_shorter].
    + intros k. rewrite Haps. apply first_seen_elem.
  - intros l p a Hp Hhas. unfold Add, Add_loop, Add_body.
    rewrite Hp; simpl. rewrite Hhas.
    eexists; split; [reflexivity|]. split; reflexivity.
Qed.

Lemma Add_deduplicates_witness :
  exists l : Layer (Ext := Sample.ext),
    Adds (Ext := Sample.ext) (makeLayer Sample.board "gtl").2
      [[Sample.f1; Sample.f2]; [Sample.f3; Sample.f4]] = Some l /\
    (Aperture_key (Collaborators := Sample.ext)) <$> Apertures l
    = first_seen (keys_of (Ext := Sample.ext)
                    (concat [[Sample.f1; Sample.f2]; [Sample.f3; Sample.f4]])).
Proof.
  assert (H : reserved_key_unused (Ext := Sample.ext)
                (concat [[Sample.f1; Sample.f2]; [Sample.f3; Sample.f4]])).
  { intros p a Hin Hp.
    simpl in Hin. rewrite !elem_of_cons in Hin.
    destruct Hin as [-> | [-> | [-> | [-> | Hin]]]];
      [..| now apply elem_of_nil in Hin];
      simpl in Hp; try discriminate;
      injection Hp as <-; vm_compute; discriminate. }
  destruct (Add_deduplicates (Ext := Sample.ext) Sample.board "gtl"
              [[Sample.f1; Sample.f2]; [Sample.f3; Sample.f4]] H)
    as [(l & HAdds & Hkeys & _) _].
  exists l. split; [exact HAdds | exact Hkeys].
Defined.

(** * Further properties of the layer code *)

(** ** The registry as a whole *)

Section Coherence.
Context `{Ext : Collaborators}.

Lemma coherent_fresh (g : Gerber) (extension : string) :
  coherent (makeLayer g extension).2.
Proof.
  exists {[ "default" := -1 ]}; simpl.
  split; [reflexivity|]. split; [apply lookup_singleton_eq|].
  split; [intros j a Hj; now rewrite lookup_nil in Hj|].
  split; [|apply map_size_singleton].
  intros k i Hk Hne. apply lookup_singleton_Some in Hk as [<- _].
  contradiction.
Qed.

Lemma Add_body_coherent (l : Layer) (p : Primitive) :
  coherent l -> exists l', Add_body l p = Some l' /\ coherent l'.
Proof.
  intros Hco. pose proof Hco as (m & Hm & Hd & Hfwd & Hbwd & Hsize).
  unfold Add_body.
  destruct (Primitive_Aperture p) as [a|]; [|now exists l].
  simpl ID.
  destruct (map_has (apertureMap l) (Aperture_key a)) eqn:Hhas;
    [now exists l|].
  rewrite Hm in Hhas |- *. simpl in Hhas.
  apply bool_decide_eq_false in Hhas. apply eq_None_not_Some in Hhas.
  assert (Hne : Aperture_key a <> "default") by congruence.
  eexists; split; [reflexivity|].
  eexists; simpl; split; [reflexivity|].
  split; [now rewrite lookup_insert_ne|]. split; [|split].
  - intros j a' Hj. apply lookup_app_Some in Hj as [Hj | [Hge Hj]].
    + pose proof (Hfwd j a' Hj) as Hk.
      rewrite lookup_insert_ne; [exact Hk | congruence].
    + apply list_lookup_singleton_Some in Hj as [Hj <-].
      assert (j = length (Apertures l)) as -> by lia.
      apply lookup_insert_eq.
  - intros k i Hk Hk'.
    destruct (decide (Aperture_key a = k)) as [<- | Hak].
    + rewrite lookup_insert_eq in Hk; injection Hk as <-.
      exists a. split; [lia|]. rewrite Nat2Z.id. split; [|reflexivity].
      rewrite lookup_app_r by reflexivity. now rewrite Nat.sub_diag.
    + rewrite lookup_insert_ne in Hk by assumption.
      destruct (Hbwd k i Hk Hk') as (a' & Hi & Ha' & Hka').
      exists a'. split; [assumption|]. split; [|assumption].
      now apply lookup_app_l_Some.
  - rewrite map_size_insert_None by assumption.
    rewrite length_app; simpl. lia.
Qed.

Lemma Add_loop_coherent (ps : list Primitive) (l : Layer) :
  coherent l -> exists l', Add_loop l ps = Some l' /\ coherent l'.
Proof.
  revert l; induction ps as [|p ps IH]; intros l Hco; simpl; [now exists l|].
  destruct (Add_body_coherent l p Hco) as (l1 & -> & Hco1). now apply IH.
Qed.

Lemma Add_coherent (l : Layer) (ps : list Primitive) :
  coherent l -> exists l', Add l ps = Some l' /\ coherent l'.
Proof.
  intros Hco; unfold Add.
  destruct (Add_loop_coherent ps l Hco) as (l1 & -> & Hco1).
  eexists; split; [reflexivity|]. exact Hco1.
Qed.

Lemma Adds_coherent (batches : list (list Primitive)) (l : Layer) :
  coherent l -> exists l', Adds l batches = Some l' /\ coherent l'.
Proof.
  revert l; induction batches as [|ps bs IH]; intros l Hco; simpl;
    [now exists l|].
  destruct (Add_coherent l ps Hco) as (l1 & -> & Hco1). now apply IH.
Qed.

Lemma coherent_NoDup (l : Layer) :
  coherent l -> NoDup (Aperture_key <$> Apertures l).
Proof.
  intros (m & Hm & Hd & Hfwd & _).
  apply NoDup_alt; intros i j k Hi Hj.
  rewrite list_lookup_fmap in Hi, Hj.
  destruct (Apertures l !! i) as [a|] eqn:Ha; [|discriminate].
  destruct (Apertures l !! j) as [b|] eqn:Hb; [|discriminate].
  simpl in Hi, Hj. injection Hi as Hi. injection Hj as Hj.
  pose proof (Hfwd i a Ha) as H1. pose proof (Hfwd j b Hb) as H2.
  rewrite Hi in H1. rewrite Hj in H2. rewrite H1 in H2.
  injection H2 as H2. lia.
Qed.

Lemma coherent_unreserved (l : Layer) :
  coherent l -> "default" ∉ Aperture_key <$> Apertures l.
Proof.
  intros (m & Hm & Hd & Hfwd & _) Hin.
  apply list_elem_of_fmap in Hin as (a & Hk & Hin).
  apply list_elem_of_lookup in Hin as [j Hj].
  pose proof (Hfwd j a Hj) as H. rewrite <- Hk, Hd in H.
  injection H as H. lia.
Qed.

End Coherence.

(** ** What [Add] leaves in the map *)

Section Resolution.
Context `{Ext : Collaborators}.

Lemma Add_body_has_mono (l l' : Layer) (p : Primitive) (k : string) :
  Add_body l p = Some l' ->
  map_has (apertureMap l) k = true -> map_has (apertureMap l') k = true.
Proof.
  unfold Add_body; intros H Hk.
  destruct (Primitive_Aperture p) as [a|]; [|congruence].
  destruct (map_has (apertureMap l) (ID (Some a))); [congruence|].
  destruct (apertureMap l) as [m|]; [|discriminate].
  injection H as <-; simpl in *.
  apply bool_decide_eq_true in Hk. apply bool_decide_eq_true.
  rewrite lookup_insert_is_Some.
  destruct (decide (ID (Some a) = k)); [now left | now right].
Qed.

Lemma Add_body_has (l l' : Layer) (p : Primitive) (a : Aperture) :
  Add_body l p = Some l' -> Primitive_Aperture p = Some a ->
  map_has (apertureMap l') (Aperture_key a) = true.
Proof.
  unfold Add_body; intros H Hp. rewrite Hp in H. simpl ID in H.
  destruct (map_has (apertureMap l) (Aperture_key a)) eqn:Hhas;
    [congruence|].
  destruct (apertureMap l) as [m|]; [|discriminate].
  injection H as <-; simpl.
  apply bool_decide_eq_true. rewrite lookup_insert_eq. now eexists.
Qed.

Lemma Add_loop_has_mono (ps : list Primitive) (l l' : Layer) (k : string) :
  Add_loop l ps = Some l' ->
  map_has (apertureMap l) k = true -> map_has (apertureMap l') k = true.
Proof.
  revert l; induction ps as [|p ps IH]; intros l; simpl; [congruence|].
  destruct (Add_body l p) as [l1|] eqn:H1; [|discriminate].
  intros H Hk. apply (IH l1 H). now apply (Add_body_has_mono l l1 p).
Qed.

Lemma Add_loop_registers (ps : list Primitive) (l l' : Layer) :
  Add_loop l ps = Some l' ->
  forall p a, p ∈ ps -> Primitive_Aperture p = Some a ->
    map_has (apertureMap l') (Aperture_key a) = true.
Proof.
  revert l; induction ps as [|q ps IH]; intros l; simpl.
  - intros _ p a Hin. now apply elem_of_nil in Hin.
  - destruct (Add_body l q) as [l1|] eqn:H1; [|discriminate].
    intros H p a Hin Hp. apply elem_of_cons in Hin as [-> | Hin].
    + apply (Add_loop_has_mono ps l1 l' _ H).
      now apply (Add_body_has l l1 q).
    + now apply (IH l1 H p a).
Qed.

Lemma Add_loop_Primitives (ps : list Primitive) (l l' : Layer) :
  Add_loop l ps = Some l' -> Primitives l' = Primitives l.
Proof.
  revert l; induction ps as [|p ps IH]; intros l; simpl; [congruence|].
  destruct (Add_body l p) as [l1|] eqn:H1; [|discriminate].
  intros H. rewrite (IH l1 H).
  unfold Add_body in H1.
  destruct (Primitive_Aperture p); [|congruence].
  destruct (map_has _ _); [congruence|].
  destruct (apertureMap l); [|discriminate].
  now injection H1 as <-.
Qed.




End Resolution.

(** X1. On a layer made by the factory and filled by any [Add] calls, the
    map and the aperture sequence are inverse to each other: the key of the
    aperture at position [j] is mapped to [j], and every key of the map but
    the reserved one is mapped to a position of the sequence that holds an
    aperture of that key. *)
Theorem registry_round_trip `{Ext : Collaborators} (g : Gerber)
    (extension : string) (batches : list (list Primitive)) :
  exists l m, Adds (makeLayer g extension).2 batches = Some l /\
    apertureMap l = Some m /\
    (forall (j : nat) a, Apertures l !! j = Some a ->
       map_index (apertureMap l) (Aperture_key a) = Z.of_nat j) /\
    (forall k i, m !! k = Some i ->
       (k = "default" /\ i = -1) \/
       (exists a, 0 <= i /\ Apertures l !! Z.to_nat i = Some a /\
                  Aperture_key a = k)).
Proof.
  destruct (Adds_coherent batches _ (coherent_fresh g extension))
    as (l & HAdds & m & Hm & Hd & Hfwd & Hbwd & _).
  exists l, m. split; [assumption|]. split; [assumption|]. split.
  - intros j a Hj. rewrite Hm; simpl. now rewrite (Hfwd j a Hj).
  - intros k i Hk. destruct (decide (k = "default")) as [-> | Hne].
    + left. split; [reflexivity | congruence].
    + right. now apply Hbwd.
Qed.

(** X2. On such a layer, whatever keys the apertures report, no identity
    key occurs twice in the aperture sequence, the reserved key does not
    occur in it at all, and the map has exactly one entry more than the
    sequence has apertures. *)
Theorem registry_never_duplicates `{Ext : Collaborators} (g : Gerber)
    (extension : string) (batches : list (list Primitive)) :
  exists l m, Adds (makeLayer g extension).2 batches = Some l /\
    apertureMap l = Some m /\
    NoDup (Aperture_key <$> Apertures l) /\
    ("default" ∉ Aperture_key <$> Apertures l) /\
    size m = S (length (Apertures l)).
Proof.
  destruct (Adds_coherent batches _ (coherent_fresh g extension))
    as (l & HAdds & Hco).
  pose proof Hco as (m & Hm & _ & _ & _ & Hsize).
  exists l, m. split; [assumption|]. split; [assumption|].
  split; [now apply coherent_NoDup|].
  split; [now apply coherent_unreserved | assumption].
Qed.



(** ** Which aperture is kept *)

Section Kept.
Context `{Ext : Collaborators}.

Lemma apertures_of_cons (p : Primitive) (ps : list Primitive) :
  apertures_of (p :: ps)
  = match Primitive_Aperture p with
    | Some a => a :: apertures_of ps
    | None => apertures_of ps
    end.
Proof. unfold apertures_of; simpl. now destruct (Primitive_Aperture p). Qed.

Lemma apertures_of_app (ps qs : list Primitive) :
  apertures_of (ps ++ qs) = (apertures_of ps ++ apertures_of qs)%list.
Proof. apply omap_app. Qed.

Lemma first_by_key_snoc (aps : list Aperture) (a : Aperture) :
  first_by_key (aps ++ [a])
  = if decide (Aperture_key a ∈ Aperture_key <$> aps)
    then first_by_key aps else (first_by_key aps ++ [a])%list.
Proof.
  induction aps as [|x aps IH]; [reflexivity|].
  cbn [first_by_key app]. rewrite IH, fmap_cons.
  destruct (decide (Aperture_key a ∈ Aperture_key <$> aps)) as [Hin|Hnin].
  - rewrite decide_True by (now right). reflexivity.
  - rewrite filter_app.
    destruct (decide (Aperture_key a = Aperture_key x)) as [Heq|Hne].
    + rewrite decide_True by (rewrite Heq; now left).
      rewrite filter_cons_False by tauto. now rewrite app_nil_r.
    + rewrite decide_False by (rewrite elem_of_cons; tauto).
      rewrite filter_cons_True by assumption. reflexivity.
Qed.

Lemma unreserved_keys (aps : list Aperture) (k : string) :
  k <> "default" ->
  k ∈ Aperture_key <$> unreserved aps <-> k ∈ Aperture_key <$> aps.
Proof.
  intros Hne. rewrite !list_elem_of_fmap. unfold unreserved.
  split; intros (a & -> & Hin); exists a; split; try reflexivity.
  - apply list_elem_of_filter in Hin. tauto.
  - apply list_elem_of_filter. tauto.
Qed.

(** The state of the registry after the apertures [aps] went through the
    loop of [Add] on a fresh layer. *)
Lemma Add_body_kept (l : Layer) (p : Primitive) (aps : list Aperture)
    (m : gmap string Z) :
  apertureMap l = Some m ->
  (forall k, is_Some (m !! k) <-> k = "default" \/ k ∈ Aperture_key <$> aps) ->
  Apertures l = first_by_key (unreserved aps) ->
  exists l' m', Add_body l p = Some l' /\ apertureMap l' = Some m' /\
    (forall k, is_Some (m' !! k)
               <-> k = "default" \/
                   k ∈ Aperture_key <$> (aps ++ apertures_of [p])%list) /\
    Apertures l' = first_by_key (unreserved (aps ++ apertures_of [p])%list).
Proof.
  intros Hm Hdom Haps. unfold Add_body. rewrite apertures_of_cons.
  destruct (Primitive_Aperture p) as [a|].
  2:{ exists l, m. change (apertures_of []) with (@nil Aperture).
      rewrite app_nil_r. auto. }
  change (apertures_of []) with (@nil Aperture). simpl ID.
  unfold unreserved in *. rewrite filter_app.
  destruct (map_has (apertureMap l) (Aperture_key a)) eqn:Hhas.
  - apply (map_has_true l m) in Hhas; [|assumption].
    exists l, m. split; [reflexivity|]. split; [assumption|]. split.
    + intros k. rewrite Hdom, fmap_app, elem_of_app, fmap_cons,
        list_elem_of_singleton.
      split; [tauto|]. intros [? | [? | ->]]; [tauto | tauto |].
      now apply Hdom.
    + destruct (decide (Aperture_key a = "default")) as [Hd|Hd].
      * rewrite filter_cons_False by tauto. now rewrite app_nil_r.
      * rewrite filter_cons_True by assumption.
        rewrite first_by_key_snoc, decide_True; [assumption|].
        apply Hdom in Hhas as [? | Hin]; [contradiction|].
        now apply (unreserved_keys aps).
  - assert (Hnone : ~ is_Some (m !! Aperture_key a)).
    { intros Hs. apply (map_has_true l m) in Hs; [congruence | assumption]. }
    assert (Hd : Aperture_key a <> "default").
    { intros Heq. apply Hnone, Hdom. now left. }
    assert (Hnin : Aperture_key a ∉ Aperture_key <$> aps).
    { intros Hin. apply Hnone, Hdom. now right. }
    rewrite Hm. eexists; eexists; split; [reflexivity|]; simpl.
    split; [reflexivity|]. split.
    + intros k. rewrite lookup_insert_is_Some, Hdom, fmap_app, elem_of_app,
        fmap_cons, list_elem_of_singleton.
      destruct (decide (Aperture_key a = k)); intuition congruence.
    + rewrite filter_cons_True by assumption.
      rewrite first_by_key_snoc, decide_False, Haps; [reflexivity|].
      intros Hin. now apply (unreserved_keys aps) in Hin.
Qed.

Lemma Add_loop_kept (ps : list Primitive) (l : Layer) (aps : list Aperture)
    (m : gmap string Z) :
  apertureMap l = Some m ->
  (forall k, is_Some (m !! k) <-> k = "default" \/ k ∈ Aperture_key <$> aps) ->
  Apertures l = first_by_key (unreserved aps) ->
  exists l' m', Add_loop l ps = Some l' /\ apertureMap l' = Some m' /\
    (forall k, is_Some (m' !! k)
               <-> k = "default" \/
                   k ∈ Aperture_key <$> (aps ++ apertures_of ps)%list) /\
    Apertures l' = first_by_key (unreserved (aps ++ apertures_of ps)%list).
Proof.
  revert l aps m; induction ps as [|p ps IH]; intros l aps m Hm Hdom Haps.
  - exists l, m. change (apertures_of []) with (@nil Aperture).
    rewrite app_nil_r. simpl. auto.
  - simpl.
    destruct (Add_body_kept l p aps m Hm Hdom Haps)
      as (l1 & m1 & -> & Hm1 & Hdom1 & Haps1).
    destruct (IH l1 _ m1 Hm1 Hdom1 Haps1) as (l2 & m2 & H2 & Hm2 & Hdom2 & Haps2).
    rewrite <- app_assoc, <- apertures_of_app in Hdom2, Haps2.
    now exists l2, m2.
Qed.

Lemma Adds_kept (batches : list (list Primitive)) (l : Layer)
    (aps : list Aperture) (m : gmap string Z) :
  apertureMap l = Some m ->
  (forall k, is_Some (m !! k) <-> k = "default" \/ k ∈ Aperture_key <$> aps) ->
  Apertures l = first_by_key (unreserved aps) ->
  exists l', Adds l batches = Some l' /\
    Apertures l'
    = first_by_key (unreserved (aps ++ apertures_of (concat batches))%list).
Proof.
  revert l aps m; induction batches as [|ps bs IH];
    intros l aps m Hm Hdom Haps; simpl.
  - exists l. change (apertures_of []) with (@nil Aperture).
    rewrite app_nil_r. auto.
  - unfold Add.
    destruct (Add_loop_kept ps l aps m Hm Hdom Haps)
      as (l1 & m1 & -> & Hm1 & Hdom1 & Haps1).
    destruct (IH (mkLayer (Filename l1) (Primitives l1 ++ ps) (Apertures l1)
                    (apertureMap l1) (mbb l1)) _ m1 Hm1 Hdom1 Haps1)
      as (l2 & H2 & Haps2).
    exists l2. split; [assumption|].
    now rewrite apertures_of_app, app_assoc.
Qed.

End Kept.

(** X4. After any [Add] calls on a layer fresh from the factory, the
    aperture sequence holds, of the apertures the primitives reported in
    order, the first one of each identity key; apertures that report the
    reserved key are left out.  When two apertures share a key, the one
    seen first is the one that is defined. *)
Theorem first_aperture_of_a_key_is_kept `{Ext : Collaborators} (g : Gerber)
    (extension : string) (batches : list (list Primitive)) :
  exists l, Adds (makeLayer g extension).2 batches = Some l /\
    Apertures l
    = first_by_key (unreserved (apertures_of (concat batches))).
Proof.
  apply (Adds_kept batches (makeLayer g extension).2 []
           {[ "default" := -1 ]}); [reflexivity | | reflexivity].
  intros k; simpl. split.
  - intros [v Hv]. apply lookup_singleton_Some in Hv as [<- _]. now left.
  - intros [-> | Hin]; [| now apply elem_of_nil in Hin].
    exists (-1). apply lookup_singleton_eq.
Qed.

(** ** Calls of [Add] in a row *)

Section Batches.
Context `{Ext : Collaborators}.

Lemma Add_loop_app (ps qs : list Primitive) (l : Layer) :
  Add_loop l (ps ++ qs)
  = match Add_loop l ps with
    | None => None
    | Some l1 => Add_loop l1 qs
    end.
Proof.
  revert l; induction ps as [|p ps IH]; intros l; simpl; [reflexivity|].
  destruct (Add_body l p) as [l1|]; [apply IH | reflexivity].
Qed.

Lemma Add_body_with_Primitives (l : Layer) (p : Primitive)
    (x : list Primitive) :
  Add_body (with_Primitives l x) p
  = (fun l' => with_Primitives l' x) <$> Add_body l p.
Proof.
  unfold Add_body; simpl.
  destruct (Primitive_Aperture p) as [a|]; [|reflexivity].
  destruct (apertureMap l) as [m|]; simpl; [|reflexivity].
  now destruct (bool_decide _).
Qed.

Lemma Add_loop_with_Primitives (ps : list Primitive) (l : Layer)
    (x : list Primitive) :
  Add_loop (with_Primitives l x) ps
  = (fun l' => with_Primitives l' x) <$> Add_loop l ps.
Proof.
  revert l; induction ps as [|p ps IH]; intros l; simpl; [reflexivity|].
  rewrite Add_body_with_Primitives.
  destruct (Add_body l p) as [l1|]; simpl; [apply IH | reflexivity].
Qed.

Lemma Add_Some_then (l l1 : Layer) (ps qs : list Primitive) :
  Add l ps = Some l1 -> Add l1 qs = Add l (ps ++ qs).
Proof.
  unfold Add at 1 3; rewrite Add_loop_app.
  destruct (Add_loop l ps) as [l0|] eqn:H0; [|discriminate].
  intros [= <-].
  change (mkLayer (Filename l0) (Primitives l0 ++ ps) (Apertures l0)
            (apertureMap l0) (mbb l0))
    with (with_Primitives l0 (Primitives l0 ++ ps)).
  unfold Add. rewrite Add_loop_with_Primitives.
  destruct (Add_loop l0 qs) as [l2|] eqn:H2; simpl; [|reflexivity].
  rewrite (Add_loop_Primitives qs l0 l2 H2). now rewrite app_assoc.
Qed.

Lemma Add_None_then (l : Layer) (ps qs : list Primitive) :
  Add l ps = None -> Add l (ps ++ qs) = None.
Proof.
  unfold Add; rewrite Add_loop_app.
  now destruct (Add_loop l ps).
Qed.

Lemma Add_nil (l : Layer) : Add l [] = Some l.
Proof. unfold Add; simpl. rewrite app_nil_r. now destruct l. Qed.

(** A loop over primitives whose keys are all in the map changes nothing. *)
Lemma Add_loop_noop (ps : list Primitive) (l : Layer) :
  (forall p a, p ∈ ps -> Primitive_Aperture p = Some a ->
     map_has (apertureMap l) (Aperture_key a) = true) ->
  Add_loop l ps = Some l.
Proof.
  induction ps as [|p ps IH]; intros H; simpl; [reflexivity|].
  assert (Hp : Add_body l p = Some l).
  { unfold Add_body. destruct (Primitive_Aperture p) as [a|] eqn:Hp;
      [|reflexivity].
    simpl ID. rewrite (H p a); [reflexivity | now left | assumption]. }
  rewrite Hp. apply IH. intros q a Hin. apply H. now right.
Qed.

(** The loop on the nil map. *)
Lemma Add_loop_nil_map (ps : list Primitive) (l : Layer) :
  apertureMap l = None ->
  Add_loop l ps = None
  <-> exists p a, p ∈ ps /\ Primitive_Aperture p = Some a.
Proof.
  intros Hnil; induction ps as [|p ps IH]; simpl.
  - split; [discriminate|]. intros (p & a & Hin & _).
    now apply elem_of_nil in Hin.
  - unfold Add_body. rewrite Hnil; simpl.
    destruct (Primitive_Aperture p) as [a|] eqn:Hp.
    + split; [|reflexivity]. intros _. exists p, a. split; [now left | assumption].
    + rewrite IH. split; intros (q & a & Hin & Hq).
      * exists q, a. split; [now right | assumption].
      * apply elem_of_cons in Hin as [-> | Hin]; [congruence|].
        now exists q, a.
Qed.

End Batches.

(** X5. How the primitives are spread over [Add] calls makes no
    difference: a row of calls ends in the same layer, or in the same
    panic, as one call with all the primitives in order.  In particular
    [Add] of nothing returns the layer as it is. *)
Theorem Adds_is_one_Add `{Ext : Collaborators} (l : Layer)
    (batches : list (list Primitive)) :
  Adds l batches = Add l (concat batches) /\ Add l [] = Some l.
Proof.
  split; [|apply Add_nil].
  revert l; induction batches as [|ps bs IH]; intros l; simpl.
  - symmetry; apply Add_nil.
  - destruct (Add l ps) as [l1|] eqn:H1.
    + rewrite IH. now apply Add_Some_then.
    + symmetry. now apply Add_None_then.
Qed.

(** [Add] panics exactly when the layer has the nil map and one of the
    primitives has an aperture. *)
Lemma Add_None_iff `{Ext : Collaborators} (l : Layer) (ps : list Primitive) :
  Add l ps = None
  <-> apertureMap l = None /\
      exists p a, p ∈ ps /\ Primitive_Aperture p = Some a.
Proof.
  split.
  - intros H. destruct (apertureMap l) as [m|] eqn:Hm.
    + destruct (Add_extends l ps m Hm) as (l' & Hl' & _). congruence.
    + split; [reflexivity|]. apply (Add_loop_nil_map ps l Hm).
      unfold Add in H. now destruct (Add_loop l ps).
  - intros [Hm Hex]. apply (Add_loop_nil_map ps l Hm) in Hex.
    unfold Add. now rewrite Hex.
Qed.

Section NilPrimitives.
Context `{Ext : Collaborators}.





End NilPrimitives.


(** On a layer from the factory, a nil argument after a good one panics. *)
Lemma Add_of_nil_Primitive_panics :
  Add_any (Ext := Sample.ext) (TopCopper Sample.board).2
    [Some Sample.f1; None] = None.
Proof. reflexivity. Qed.

(** X7. Registration is idempotent: when [Add] of some primitives has
    returned, [Add] of the same primitives again returns too, appends them
    once more and leaves the aperture sequence and the map as they are. *)
Theorem Add_again_registers_nothing `{Ext : Collaborators} (l l1 : Layer)
    (ps : list Primitive) :
  Add l ps = Some l1 ->
  exists l2, Add l1 ps = Some l2 /\
    Apertures l2 = Apertures l1 /\ apertureMap l2 = apertureMap l1 /\
    Primitives l2 = (Primitives l1 ++ ps)%list.
Proof.
  unfold Add at 1.
  destruct (Add_loop l ps) as [l0|] eqn:H0; [|discriminate].
  intros [= <-].
  unfold Add. rewrite Add_loop_noop.
  - eexists; split; [reflexivity|]. simpl. auto.
  - intros p a Hin Hp; simpl. now apply (Add_loop_registers ps l l0 H0 p a).
Qed.

Lemma Add_again_registers_nothing_witness :
  exists l2 : Layer (Ext := Sample.ext),
    Add (Ext := Sample.ext) Sample.two [Sample.f1; Sample.f2] = Some l2 /\
    Apertures l2 = Apertures (Ext := Sample.ext) Sample.two /\
    apertureMap l2 = apertureMap (Ext := Sample.ext) Sample.two /\
    Primitives l2
    = (Primitives (Ext := Sample.ext) Sample.two
       ++ [Sample.f1; Sample.f2])%list.
Proof.
  assert (H : Add (Ext := Sample.ext) (TopCopper Sample.board).2
                [Sample.f1; Sample.f2] = Some Sample.two)
    by (vm_compute; reflexivity).
  exact (Add_again_registers_nothing (Ext := Sample.ext)
           (TopCopper Sample.board).2 Sample.two [Sample.f1; Sample.f2] H).
Defined.

(** ** More on the bounding box *)

Section Boxes.
Context `{Ext : Collaborators}.

Lemma MBB_loop_None (ps : list Primitive) :
  MBB_loop 0 ps None = None <-> ps = [].
Proof.
  destruct ps as [|p ps]; simpl; [tauto|].
  rewrite MBB_loop_fold. split; discriminate.
Qed.

(** What [MBB] returns on a layer without cached box. *)
Lemma Layer_MBB_uncached_box (l : Layer) (p : Primitive)
    (ps : list Primitive) :
  mbb l = None -> Primitives l = p :: ps ->
  (Layer_MBB l).1.1
  = foldl (fun acc q => MBB_Join acc (Primitive_MBB q)) (Primitive_MBB p) ps.
Proof.
  intros Hc Hps. unfold Layer_MBB. rewrite Hc, Hps; simpl.
  now rewrite MBB_loop_fold.
Qed.

Section Union.
Hypothesis Join_comm : forall a b, MBB_Join a b = MBB_Join b a.
Hypothesis Join_assoc :
  forall a b c, MBB_Join (MBB_Join a b) c = MBB_Join a (MBB_Join b c).

Lemma foldl_Join_out (bs : list (MBB float64)) (a b : MBB float64) :
  foldl MBB_Join (MBB_Join a b) bs = MBB_Join a (foldl MBB_Join b bs).
Proof.
  revert a b; induction bs as [|c bs IH]; intros a b; simpl; [reflexivity|].
  now rewrite Join_assoc, IH.
Qed.

Lemma foldl_Join_union (bs : list (MBB float64)) (b : MBB float64) :
  Some (foldl MBB_Join b bs) = union_of (b :: bs).
Proof.
  revert b; induction bs as [|c bs IH]; intros b; [reflexivity|].
  change (Some (foldl MBB_Join (MBB_Join b c) bs)
          = Some (match union_of (c :: bs) with
                  | None => b
                  | Some d => MBB_Join b d
                  end)).
  now rewrite <- IH, foldl_Join_out.
Qed.

Lemma union_of_Permutation (bs bs' : list (MBB float64)) :
  bs ≡ₚ bs' -> union_of bs = union_of bs'.
Proof.
  induction 1 as [| b bs bs' _ IH | a b bs | bs1 bs2 bs3 _ IH1 _ IH2].
  - reflexivity.
  - simpl. now rewrite IH.
  - simpl. destruct (union_of bs) as [c|]; f_equal.
    + now rewrite <- !Join_assoc, (Join_comm a b).
    + apply Join_comm.
  - congruence.
Qed.

End Union.

End Boxes.

(** X8. [MBB] changes nothing of a layer but its cache, and it logs a line
    exactly when it finds the cache empty on a layer without primitives. *)
Theorem MBB_touches_only_the_cache `{Ext : Collaborators} (l : Layer) :
  Filename (Layer_MBB l).1.2 = Filename l /\
  Primitives (Layer_MBB l).1.2 = Primitives l /\
  Apertures (Layer_MBB l).1.2 = Apertures l /\
  apertureMap (Layer_MBB l).1.2 = apertureMap l /\
  ((Layer_MBB l).2 <> [] <-> mbb l = None /\ Primitives l = []).
Proof.
  unfold Layer_MBB. destruct (mbb l) as [b|] eqn:Hc; simpl.
  - do 4 (split; [reflexivity|]).
    split; [intros H; now contradict H | intros [H _]; discriminate H].
  - destruct (MBB_loop 0 (Primitives l) None) as [b|] eqn:Hloop; simpl.
    + do 4 (split; [reflexivity|]).
      split; [intros H; now contradict H|].
      intros [_ Hps]. apply MBB_loop_None in Hps. congruence.
    + do 4 (split; [reflexivity|]).
      split; [|intros _; discriminate].
      intros _. split; [reflexivity | now apply MBB_loop_None].
Qed.

(** X9. On a layer that has primitives and no cached box, adding
    primitives before asking for the box gives the box the layer had,
    joined with the boxes of the added primitives in order. *)
Theorem MBB_after_Add `{Ext : Collaborators} (l l' : Layer)
    (qs : list Primitive) :
  mbb l = None -> Primitives l <> [] -> Add l qs = Some l' ->
  (Layer_MBB l').1.1
  = foldl (fun acc q => MBB_Join acc (Primitive_MBB q)) (Layer_MBB l).1.1 qs.
Proof.
  intros Hc Hne HAdd.
  destruct (Primitives l) as [|p ps] eqn:Hps; [contradiction|].
  assert (Hc' : mbb l' = None) by (rewrite <- Hc; now apply Add_mbb with qs).
  assert (Hps' : Primitives l' = p :: (ps ++ qs)%list).
  { unfold Add in HAdd.
    destruct (Add_loop l qs) as [l0|] eqn:H0; [|discriminate].
    injection HAdd as <-; simpl.
    now rewrite (Add_loop_Primitives qs l l0 H0), Hps. }
  rewrite (Layer_MBB_uncached_box l' p _ Hc' Hps').
  rewrite (Layer_MBB_uncached_box l p ps Hc Hps).
  apply foldl_app.
Qed.

Lemma MBB_after_Add_witness :
  (Layer_MBB (Ext := Sample.ext) Sample.four).1.1
  = foldl (fun acc q =>
             MBB_Join (Collaborators := Sample.ext) acc (Primitive_MBB q))
      (Layer_MBB (Ext := Sample.ext) Sample.two).1.1 [Sample.f3; Sample.f4].
Proof.
  assert (Hne : Primitives (Ext := Sample.ext) Sample.two <> [])
    by discriminate.
  assert (H : Add (Ext := Sample.ext) Sample.two [Sample.f3; Sample.f4]
              = Some Sample.four) by (vm_compute; reflexivity).
  exact (MBB_after_Add (Ext := Sample.ext) Sample.two Sample.four
           [Sample.f3; Sample.f4] eq_refl Hne H).
Defined.

(** X10. When [Join] is commutative and associative, the box of a layer
    without cached box does not depend on the order of its primitives. *)
Theorem MBB_order_independent `{Ext : Collaborators} (l1 l2 : Layer) :
  (forall a b, MBB_Join a b = MBB_Join b a) ->
  (forall a b c, MBB_Join (MBB_Join a b) c = MBB_Join a (MBB_Join b c)) ->
  mbb l1 = None -> mbb l2 = None -> Primitives l1 ≡ₚ Primitives l2 ->
  (Layer_MBB l1).1.1 = (Layer_MBB l2).1.1.
Proof.
  intros Hcomm Hassoc Hc1 Hc2 Hperm.
  destruct (Primitives l1) as [|p ps] eqn:Hps1.
  - apply Permutation_nil_l in Hperm.
    unfold Layer_MBB. rewrite Hc1, Hc2, Hps1, <- Hperm. reflexivity.
  - destruct (Primitives l2) as [|q qs] eqn:Hps2;
      [now apply Permutation_nil_r in Hperm|].
    rewrite (Layer_MBB_uncached_box l1 p ps Hc1 Hps1).
    rewrite (Layer_MBB_uncached_box l2 q qs Hc2 Hps2).
    apply (inj Some).
    rewrite <- !(foldl_fmap MBB_Join _ _ Primitive_MBB).
    rewrite !(foldl_Join_union Hassoc).
    apply (union_of_Permutation Hcomm Hassoc).
    change (Primitive_MBB <$> p :: ps ≡ₚ Primitive_MBB <$> q :: qs).
    now rewrite Hperm.
Qed.

Lemma MBB_order_independent_witness :
  (Layer_MBB (Ext := Sample.ext) Sample.four).1.1
  = (Layer_MBB (Ext := Sample.ext) Sample.four_shuffled).1.1.
Proof.
  assert (Hcomm : forall a b : MBB Z, Sample.join a b = Sample.join b a).
  { intros [[? ?] [? ?]] [[? ?] [? ?]]; unfold Sample.join; simpl.
    f_equal; f_equal; lia. }
  assert (Hassoc : forall a b c : MBB Z,
             Sample.join (Sample.join a b) c
             = Sample.join a (Sample.join b c)).
  { intros [[? ?] [? ?]] [[? ?] [? ?]] [[? ?] [? ?]];
      unfold Sample.join; simpl.
    f_equal; f_equal; lia. }
  assert (Hperm : Primitives (Ext := Sample.ext) Sample.four
                  ≡ₚ Primitives (Ext := Sample.ext) Sample.four_shuffled).
  { simpl.
    apply Permutation_cons_app
      with (l1 := [Sample.f4; Sample.f2]) (l2 := [Sample.f3]).
    apply Permutation_cons_app with (l1 := [Sample.f4]) (l2 := [Sample.f3]).
    apply perm_swap. }
  exact (MBB_order_independent (Ext := Sample.ext) Sample.four
           Sample.four_shuffled Hcomm Hassoc eq_refl eq_refl Hperm).
Defined.

(** ** More on serialization *)

Lemma calls_WriteString (W : Writer) (x : string) (s : sink W) :
  calls W (WriteString x) s = [(x, (sink_Write W s x).2)].
Proof.
  unfold calls, WriteString; simpl. now destruct (sink_Write W s x).
Qed.

(** X11. On every sink and for every layer, the first four writes of
    [WriteGerber] are the header and default aperture lines and its last
    write is the trailer line, whatever the sink answered to the writes
    before. *)
Theorem WriteGerber_frames_every_file `{Ext : Collaborators} (l : Layer)
    (W : Writer) (s : sink W) :
  exists middle,
    (calls W (WriteGerber l) s).*1
    = (["%FSLAX36Y36*%" +:+ LF; "%MOMM*%" +:+ LF; "%LPD*%" +:+ LF;
        "%ADD11C,0.00100*%" +:+ LF] ++ middle ++ ["M02*" +:+ LF])%list.
Proof.
  unfold WriteGerber.
  rewrite !calls_bind, !calls_WriteString.
  match goal with
  | |- context [(calls W (for_range_from ?i ?xs ?f) ?s1 ++
                 calls W (for_range ?ys ?h) ?s2 ++ _)%list] =>
      exists ((calls W (for_range_from i xs f) s1
               ++ calls W (for_range ys h) s2)%list.*1)
  end.
  rewrite !fmap_app. simpl. now rewrite <- !app_assoc.
Qed.

(** X12. A layer with the nil map, which [Add] accepts as long as no
    primitive has an aperture, has every primitive looked up to 0 and so
    drawn with select code 12, those without aperture too. *)
Theorem nil_map_draws_with_12 `{Ext : Collaborators} (l : Layer) :
  apertureMap l = None ->
  (forall p,
     int_add 12 (map_index (apertureMap l) (ID (Primitive_Aperture p))) = 12) /\
  output (WriteGerber l)
  = cat header_lines +:+ default_aperture_line +:+ definitions l
    +:+ cat (map (fun p => drawn p 12) (Primitives l)) +:+ trailer_line.
Proof.
  intros Hnil. split; [intros p; now rewrite Hnil|].
  rewrite WriteGerber_output. unfold draws. now rewrite Hnil.
Qed.

Lemma nil_map_draws_with_12_witness :
  output (WriteGerber (Ext := Sample.ext) Sample.zero_value)
  = cat header_lines +:+ default_aperture_line
    +:+ definitions (Ext := Sample.ext) Sample.zero_value
    +:+ cat (map (fun p => drawn (Ext := Sample.ext) p 12)
               (Primitives (Ext := Sample.ext) Sample.zero_value))
    +:+ trailer_line.
Proof.
  exact (proj2 (nil_map_draws_with_12 (Ext := Sample.ext) Sample.zero_value
                  eq_refl)).
Defined.

(** ** More on the factories *)

Section Factories.
Context `{Ext : Collaborators}.

Lemma makeLayer_Filename_inj (g : Gerber) (e e' : string) :
  Filename (makeLayer g e).2 = Filename (makeLayer g e').2 -> e = e'.
Proof.
  simpl; intros H.
  apply (inj (String.app (FilenamePrefix g))) in H.
  now apply (inj (String.app ".")) in H.
Qed.

Lemma makeLayers_cons (g : Gerber) (e : string) (es : list string) :
  makeLayers g (e :: es)
  = ((makeLayers (makeLayer g e).1 es).1,
     (makeLayer g e).2 :: (makeLayers (makeLayer g e).1 es).2).
Proof.
  cbn [makeLayers]. destruct (makeLayer g e) as [g1 l1]; simpl.
  now destruct (makeLayers g1 es).
Qed.

Lemma makeLayers_spec (extensions : list string) (g : Gerber) :
  Layers (makeLayers g extensions).1
  = (Layers g ++ (makeLayers g extensions).2)%list /\
  FilenamePrefix (makeLayers g extensions).1 = FilenamePrefix g /\
  Filename <$> (makeLayers g extensions).2
  = (fun e => FilenamePrefix g +:+ "." +:+ e) <$> extensions.
Proof.
  revert g; induction extensions as [|e es IH]; intros g.
  - simpl. now rewrite app_nil_r.
  - rewrite makeLayers_cons.
    destruct (IH (makeLayer g e).1) as (HL & HP & HF).
    cbn [fst snd]. rewrite HL, HP, !fmap_cons, HF.
    split; [simpl; now rewrite <- app_assoc | split; reflexivity].
Qed.

End Factories.

(** X13. On one design the factories never collide by kind: the layers
    of the nine kinds have nine different file names, and numbered layers
    have different file names for different numbers. *)
Theorem factory_names_differ `{Ext : Collaborators} (g : Gerber) (n n' : Z) :
  NoDup (Filename <$>
           [(LayerN g n).2; (TopCopper g).2; (TopSolderMask g).2;
            (TopSilkscreen g).2; (BottomCopper g).2; (BottomSolderMask g).2;
            (BottomSilkscreen g).2; (Drill g).2; (Outline g).2]) /\
  (Filename (LayerN g n).2 = Filename (LayerN g n').2 -> n = n').
Proof.
  split.
  - apply (NoDup_fmap_2_strong Filename).
    + intros x y Hx Hy Hxy.
      rewrite !elem_of_cons, elem_of_nil in Hx, Hy.
      destruct Hx as [->|[->|[->|[->|[->|[->|[->|[->|[->|[]]]]]]]]]];
        destruct Hy as [->|[->|[->|[->|[->|[->|[->|[->|[->|[]]]]]]]]]];
        try reflexivity;
        apply makeLayer_Filename_inj in Hxy; discriminate Hxy.
    + repeat (apply NoDup_cons; split;
              [rewrite ?elem_of_cons, elem_of_nil;
               intros H; repeat destruct H as [H|H]; try contradiction;
               apply (f_equal Filename) in H;
               apply makeLayer_Filename_inj in H; discriminate H|]).
      apply NoDup_nil_2.
  - intros H. apply makeLayer_Filename_inj in H.
    apply (inj (String.app "gl")) in H. now apply (inj pretty).
Qed.

(** X14. Factory calls in a row leave the design's prefix alone and append
    their layers to the design in the order of the calls, each named by
    the prefix, a dot and its extension; the layers the design had stay in
    front, untouched. *)
Theorem makeLayers_in_creation_order `{Ext : Collaborators} (g : Gerber)
    (extensions : list string) :
  Layers (makeLayers g extensions).1
  = (Layers g ++ (makeLayers g extensions).2)%list /\
  FilenamePrefix (makeLayers g extensions).1 = FilenamePrefix g /\
  Filename <$> Layers (makeLayers g extensions).1
  = ((Filename <$> Layers g)
     ++ ((fun e => FilenamePrefix g +:+ "." +:+ e) <$> extensions))%list.
Proof.
  destruct (makeLayers_spec extensions g) as (HL & HP & HF).
  split; [assumption|]. split; [assumption|].
  now rewrite HL, fmap_app, HF.
Qed.
